(** * The collector of tuli-pen/parcial2_so ([collector.c])

    A shallow embedding of the collector's line handling: the libc string
    functions it calls ([strtok], [strcmp], [strncpy], [strncmp], [atof]),
    the host table ([hosts], [get_host]), the two parsers ([parse_cpu],
    [parse_mem]) and the per-connection loop ([client_thread]); further,
    one turn of the display ([visualizer_thread]) and, of the agents
    ([agent_cpu.c], [agent_mem.c]), [send_all], [calcular_deltas] and the
    line they build.

    C strings are lists of characters without their terminating NUL.  The
    program's global state is the table [hosts] together with the position
    [strtok] saves between calls; it is threaded through a state monad whose
    results are either a value or undefined behaviour of the C program. *)

From Stdlib Require Import Ascii String ZArith Lia.
From stdpp Require Import base option list strings pretty.

Open Scope list_scope.

(** ** Characters and C strings *)

Definition cstr := list ascii.

Definition cs (s : string) : cstr := list_ascii_of_string s.

Definition NUL : ascii := "000"%char.
Definition NL : ascii := "010"%char.
Definition SEMI : ascii := ";"%char.

(** The string a [char] buffer holds: its bytes up to the first NUL. *)
Fixpoint c_str (bytes : list ascii) : cstr :=
  match bytes with
  | [] => []
  | c :: bs => if Ascii.eqb c NUL then [] else c :: c_str bs
  end.

Fixpoint cstr_eqb (a b : cstr) : bool :=
  match a, b with
  | [], [] => true
  | x :: a', y :: b' => Ascii.eqb x y && cstr_eqb a' b'
  | _, _ => false
  end.

(** [is_delim delim c]: [c] occurs in the delimiter string. *)
Definition is_delim (delim : cstr) (c : ascii) : bool :=
  existsb (Ascii.eqb c) delim.
Arguments is_delim : simpl never.

(** [s + strspn(s, delim)] *)
Fixpoint skip_delims (delim : cstr) (s : cstr) : cstr :=
  match s with
  | [] => []
  | c :: s' => if is_delim delim c then skip_delims delim s' else s
  end.

(** The token that starts at [s] and what follows the delimiter that ends
    it: [strcspn], the NUL written over the delimiter, and the position
    after it.  A token that runs to the end of the string leaves the empty
    string behind. *)
Fixpoint split_token (delim : cstr) (s : cstr) : cstr * cstr :=
  match s with
  | [] => ([], [])
  | c :: s' =>
      if is_delim delim c then ([], s')
      else let '(tok, rest) := split_token delim s' in (c :: tok, rest)
  end.

(** The pieces of [s] between delimiters, empty ones included: the
    separator-delimited fields of a line. *)
Fixpoint split_all (delim : cstr) (s : cstr) : list cstr :=
  match s with
  | [] => [[]]
  | c :: s' =>
      if is_delim delim c then [] :: split_all delim s'
      else match split_all delim s' with
           | p :: ps => (c :: p) :: ps
           | [] => [[c]]
           end
  end.

Definition nonempty (f : cstr) : bool :=
  match f with [] => false | _ :: _ => true end.

(** The tokens successive [strtok] calls find in [s]: its non-empty
    pieces. *)
Definition tokens (delim : cstr) (s : cstr) : list cstr :=
  List.filter nonempty (split_all delim s).

Definition semi : cstr := [SEMI].
Definition newline : cstr := [NL].

(** A line written from its semicolon-separated fields. *)
Fixpoint join (fs : list cstr) : cstr :=
  match fs with
  | [] => []
  | [f] => f
  | f :: fs' => f ++ SEMI :: join fs'
  end.

Definition no_semi (f : cstr) : bool :=
  forallb (λ c, negb (Ascii.eqb c SEMI)) f.

(** A field that is present and not empty. *)
Definition is_field (f : cstr) : bool := nonempty f && no_semi f.

(** ** Pointers, faults and the state monad *)

(** The two character arrays of [client_thread].  A [char *] is modelled by
    the array it points into and the string found there. *)
Inductive object := Buf | Copy.

Abbreviation charp := (object * cstr)%type.

Inductive fault :=
  | NullPointer   (* a null pointer handed to a libc function *)
  | OutOfBounds   (* a read past the end of an array *)
  | Overlap       (* strncpy between overlapping objects *)
  | OutOfFuel.    (* the loop bound of the model ran out (never happens, see
                     [process_buffer_fuel]) *)

Inductive result (A : Type) :=
  | Ok (a : A)
  | Undefined (f : fault).
Arguments Ok {A} a.
Arguments Undefined {A} f.

(** ** What ISO C says of [atof] on text that is no number

    [strtod] skips white space and an optional sign; the subject sequence
    must then start with a digit, with a point and a digit, or with INF or
    NAN in any case.  Otherwise no conversion is performed and the result
    is zero. *)

Definition isspace (c : ascii) : bool :=
  let n := nat_of_ascii c in
  Nat.eqb n 32 || (Nat.leb 9 n && Nat.leb n 13).

Definition isdigit (c : ascii) : bool :=
  let n := nat_of_ascii c in Nat.leb 48 n && Nat.leb n 57.

Definition tolower (c : ascii) : ascii :=
  let n := nat_of_ascii c in
  if Nat.leb 65 n && Nat.leb n 90 then ascii_of_nat (n + 32) else c.

Fixpoint skip_space (s : cstr) : cstr :=
  match s with
  | [] => []
  | c :: s' => if isspace c then skip_space s' else s
  end.

Definition sign_of (s : cstr) : bool * cstr :=
  match s with
  | c :: s' =>
      if Ascii.eqb c "-" then (true, s')
      else if Ascii.eqb c "+" then (false, s')
      else (false, s)
  | [] => (false, [])
  end.

Definition starts_ci (lit s : cstr) : bool :=
  cstr_eqb (map tolower (take (length lit) s)) lit.

Definition no_conversion (s : cstr) : bool :=
  match snd (sign_of (skip_space s)) with
  | [] => true
  | c :: rest =>
      if isdigit c then false
      else if Ascii.eqb c "." then
        match rest with
        | d :: _ => negb (isdigit d)
        | [] => true
        end
      else negb (starts_ci (cs "inf") (c :: rest)
                 || starts_ci (cs "nan") (c :: rest))
  end.

(** ** An [atof] to run the model with

    The decimal forms of [strtod]: white space, sign, digits with an
    optional point, optional exponent.  The value [m * 10^e] is kept as the
    pair [(m, e)] with [m] not divisible by ten (and [(0, 0)] for zero);
    the rounding to [float] is left out.  Hexadecimal forms, INF and NAN
    are not covered. *)
Module Decimal.

Definition num : Type := Z * Z.

Definition zero : num := (0%Z, 0%Z).

Fixpoint span_digits (s : cstr) : cstr * cstr :=
  match s with
  | [] => ([], [])
  | c :: s' =>
      if isdigit c then let '(d, r) := span_digits s' in (c :: d, r)
      else ([], s)
  end.

Definition digit_val (c : ascii) : Z := Z.of_nat (nat_of_ascii c - 48).

Definition digits_val (ds : cstr) : Z :=
  fold_left (λ acc c, (10 * acc + digit_val c)%Z) ds 0%Z.

Fixpoint normalize (fuel : nat) (m e : Z) : num :=
  match fuel with
  | 0 => (m, e)
  | S fuel' =>
      if Z.eqb m 0 then zero
      else if Z.eqb (m mod 10) 0 then normalize fuel' (m / 10) (e + 1)
      else (m, e)
  end.

Definition exponent_of (s : cstr) : Z :=
  match s with
  | c :: s' =>
      if Ascii.eqb (tolower c) "e" then
        let '(neg, s'') := sign_of s' in
        let '(ds, _) := span_digits s'' in
        match ds with
        | [] => 0%Z
        | _ :: _ => if neg then (- digits_val ds)%Z else digits_val ds
        end
      else 0%Z
  | [] => 0%Z
  end.

Definition atof (s : cstr) : num :=
  let '(neg, s1) := sign_of (skip_space s) in
  let '(ipart, s2) := span_digits s1 in
  let '(fpart, s3) :=
    match s2 with
    | c :: s2' => if Ascii.eqb c "." then span_digits s2' else ([], s2)
    | [] => ([], [])
    end in
  match ipart ++ fpart with
  | [] => zero
  | ds =>
      let m := digits_val ds in
      let e := (exponent_of s3 - Z.of_nat (length fpart))%Z in
      normalize (S (length ds)) (if neg then (- m)%Z else m) e
  end.

End Decimal.

(** ** Constants of the collector *)

Definition MAX_HOSTS : nat := 64.
Definition MAX_LINE : nat := 512.
Definition IP_SIZE : nat := 32.   (* sizeof(hosts[i].ip) *)

(** An id that fits the [ip] array together with its NUL. *)
Definition fits (id : cstr) : Prop := length id < IP_SIZE.

Section Collector.

(** The type [float] and libc's [atof] are taken as given: [atof s] stands
    for the [float] that [float x = atof(s)] stores, and [fzero] for the
    [0.0] of the zero-initialised globals. *)
Context {float : Type}.
Variable fzero : float.
Variable atof : cstr → float.

Record host_info_t := mk_host {
  ip : cstr;          (* the bytes of [char ip[32]] up to the first NUL;
                         32 of them when the array holds no NUL *)
  cpu_usage : float;
  cpu_user : float;
  cpu_sys : float;
  cpu_idle : float;
  mem_used : float;
  mem_free : float;
  swap_t : float;
  swap_f : float;
  has_cpu : bool;     (* int flag, only ever 0 or 1 *)
  has_mem : bool
}.

Definition zero_host : host_info_t :=
  mk_host [] fzero fzero fzero fzero fzero fzero fzero fzero false false.

(** The program state: the global table and [strtok]'s saved pointer. *)
Record state := mk_state {
  hosts : list host_info_t;
  olds : option charp
}.

(** [host_info_t hosts[MAX_HOSTS]], zero-initialised. *)
Definition hosts0 : list host_info_t := replicate MAX_HOSTS zero_host.

Definition state0 : state := mk_state hosts0 None.

Definition M (A : Type) : Type := state → result (A * state).

Definition ret {A} (a : A) : M A := λ s, Ok (a, s).

Definition bind {A B} (c : M A) (k : A → M B) : M B :=
  λ s, match c s with
       | Ok (a, s') => k a s'
       | Undefined f => Undefined f
       end.

Definition undefined {A} (f : fault) : M A := λ _, Undefined f.

Definition get_olds : M (option charp) := λ s, Ok (olds s, s).
Definition put_olds (p : charp) : M unit :=
  λ s, Ok (tt, mk_state (hosts s) (Some p)).

Notation "x ← c ; k" := (bind c (λ x, k))
  (at level 20, c at level 100, k at level 200, only parsing, right associativity).
Notation "c ;; k" := (bind c (λ _, k))
  (at level 100, k at level 200, right associativity).

(** The table a run leaves behind, when it has defined behaviour. *)
Definition table_of {A} (r : result (A * state)) : result (list host_info_t) :=
  match r with
  | Ok (_, s) => Ok (hosts s)
  | Undefined f => Undefined f
  end.

(** ** libc *)

(** [strtok(s, delim)]: [s = None] is the call with a null first argument,
    which resumes at the saved pointer. *)
Definition strtok (s : option charp) (delim : cstr) : M (option charp) :=
  saved ← get_olds;
  match (match s with Some p => Some p | None => saved end) with
  | None => undefined NullPointer
  | Some (o, str) =>
      match skip_delims delim str with
      | [] => put_olds (o, []) ;; ret None
      | c :: str' =>
          let '(tok, rest) := split_token delim (c :: str') in
          put_olds (o, rest) ;; ret (Some (o, tok))
      end
  end.

(** [atof(p)]: a null argument is dereferenced. *)
Definition atof_ptr (p : option charp) : M float :=
  match p with
  | None => undefined NullPointer
  | Some (_, s) => ret (atof s)
  end.

(** [strcmp(hosts[i].ip, s) == 0].  [field] is what the 32-byte array
    holds.  When the array holds no NUL, the comparison stops inside it
    only if [s] differs from it there; otherwise it reads [ip[32]]. *)
Definition strcmp_ip (field s : cstr) : result bool :=
  if length field <? IP_SIZE then Ok (cstr_eqb field s)
  else if cstr_eqb (take IP_SIZE s) field then Undefined OutOfBounds
  else Ok false.

(** What an [n]-byte array holds after [strncpy(dst, src, n)]: no NUL is
    written when [src] has [n] characters or more. *)
Definition strncpy (src : cstr) (n : nat) : cstr := take n src.

(** [strncmp(s, lit, n) == 0] for a literal [lit] of [n] characters. *)
Definition strncmp_eq (s lit : cstr) (n : nat) : bool :=
  cstr_eqb (take n s) lit.

(** ** The host table *)

(** First loop of [get_host]: the index of the first entry whose [ip]
    compares equal. *)
Fixpoint find_ip (hs : list host_info_t) (s : cstr) (i : nat)
  : result (option nat) :=
  match hs with
  | [] => Ok None
  | h :: hs' =>
      match strcmp_ip (ip h) s with
      | Undefined f => Undefined f
      | Ok true => Ok (Some i)
      | Ok false => find_ip hs' s (S i)
      end
  end.

(** Second loop: the index of the first entry with [ip[0] == 0]. *)
Fixpoint find_free (hs : list host_info_t) (i : nat) : option nat :=
  match hs with
  | [] => None
  | h :: hs' =>
      match ip h with
      | [] => Some i
      | _ :: _ => find_free hs' (S i)
      end
  end.

Definition set_ip (s : cstr) (h : host_info_t) : host_info_t :=
  mk_host s (cpu_usage h) (cpu_user h) (cpu_sys h) (cpu_idle h)
    (mem_used h) (mem_free h) (swap_t h) (swap_f h) (has_cpu h) (has_mem h).

Definition set_cpu (usage user sys idle : float) (h : host_info_t)
  : host_info_t :=
  mk_host (ip h) usage user sys idle
    (mem_used h) (mem_free h) (swap_t h) (swap_f h) true (has_mem h).

Definition set_mem (used free swt swf : float) (h : host_info_t)
  : host_info_t :=
  mk_host (ip h) (cpu_usage h) (cpu_user h) (cpu_sys h) (cpu_idle h)
    used free swt swf (has_cpu h) true.

(** [get_host(ip)] on the table: the index of the entry the result points
    to ([None] for a null pointer), and the table it leaves. *)
Definition get_host (s : cstr) (hs : list host_info_t)
  : result (option nat * list host_info_t) :=
  match find_ip hs s 0 with
  | Undefined f => Undefined f
  | Ok (Some i) => Ok (Some i, hs)
  | Ok None =>
      match find_free hs 0 with
      | Some i => Ok (Some i, alter (set_ip (strncpy s IP_SIZE)) i hs)
      | None => Ok (None, hs)
      end
  end.

(** The critical section of [parse_cpu]; the mutex has no effect on a
    single thread. *)
Definition cpu_update (s : cstr) (usage user sys idle : float)
    (hs : list host_info_t) : result (list host_info_t) :=
  match get_host s hs with
  | Undefined f => Undefined f
  | Ok (Some i, hs') => Ok (alter (set_cpu usage user sys idle) i hs')
  | Ok (None, hs') => Ok hs'
  end.

(** The critical section of [parse_mem]. *)
Definition mem_update (s : cstr) (used free swt swf : float)
    (hs : list host_info_t) : result (list host_info_t) :=
  match get_host s hs with
  | Undefined f => Undefined f
  | Ok (Some i, hs') => Ok (alter (set_mem used free swt swf) i hs')
  | Ok (None, hs') => Ok hs'
  end.

(** A table operation, run on the global table. *)
Definition on_hosts (f : list host_info_t → result (list host_info_t))
  : M unit :=
  λ s, match f (hosts s) with
       | Ok hs => Ok (tt, mk_state hs (olds s))
       | Undefined e => Undefined e
       end.

(** ** The parsers *)

Definition parse_cpu (msg : charp) : M unit :=
  _ ← strtok (Some msg) semi;
  tok ← strtok None semi;
  match tok with
  | None => ret tt
  | Some ip_tok =>
      tok ← strtok None semi;
      match tok with
      | None => ret tt
      | Some usage_tok =>
          let usage := atof (snd usage_tok) in
          user ← (t ← strtok None semi; atof_ptr t);
          sys ← (t ← strtok None semi; atof_ptr t);
          idle ← (t ← strtok None semi; atof_ptr t);
          on_hosts (cpu_update (snd ip_tok) usage user sys idle)
      end
  end.

Definition parse_mem (msg : charp) : M unit :=
  _ ← strtok (Some msg) semi;
  tok ← strtok None semi;
  match tok with
  | None => ret tt
  | Some ip_tok =>
      used ← (t ← strtok None semi; atof_ptr t);
      free ← (t ← strtok None semi; atof_ptr t);
      swt ← (t ← strtok None semi; atof_ptr t);
      swf ← (t ← strtok None semi; atof_ptr t);
      on_hosts (mem_update (snd ip_tok) used free swt swf)
  end.

(** ** The connection handler *)

(** The body of the inner loop of [client_thread] up to the next [strtok]:
    [line] is copied into [copy] and dispatched on its prefix.  A [line]
    that points into [copy] makes the [strncpy] overlap. *)
Definition handle_line (line : charp) : M unit :=
  match fst line with
  | Copy => undefined Overlap
  | Buf =>
      let copy := (Copy, strncpy (snd line) (MAX_LINE - 1)) in
      if strncmp_eq (snd copy) (cs "CPU;") 4 then parse_cpu copy
      else if strncmp_eq (snd copy) (cs "MEM;") 4 then parse_mem copy
      else ret tt
  end.

(** [while (line) { ...; line = strtok(NULL, "\n"); }] *)
Fixpoint lines_loop (fuel : nat) (line : option charp) : M unit :=
  match line with
  | None => ret tt
  | Some l =>
      match fuel with
      | 0 => undefined OutOfFuel
      | S fuel' =>
          handle_line l ;;
          next ← strtok None newline;
          lines_loop fuel' next
      end
  end.

(** One iteration of the outer loop, for the [data] one [recv] delivered:
    [buf[n] = 0], then the buffer is cut into lines. *)
Definition process_buffer (data : list ascii) : M unit :=
  line ← strtok (Some (Buf, c_str data)) newline;
  lines_loop (S (length data)) line.

(** [client_thread] on the data of the successive [recv] calls (each at
    most [MAX_LINE - 1] bytes).  An empty element is a [recv] that returned
    [n <= 0], on which the loop is left; the list ends when [keep_running]
    is cleared. *)
Fixpoint client_thread (reads : list (list ascii)) : M unit :=
  match reads with
  | [] => ret tt
  | [] :: _ => ret tt
  | data :: reads' => process_buffer data ;; client_thread reads'
  end.

(** ** Notions the properties are stated with *)

(** The records of the table in table order, unused entries skipped: what
    [visualizer_thread] prints. *)
Definition snapshot (hs : list host_info_t) : list host_info_t :=
  List.filter (λ h, nonempty (ip h)) hs.

(** A parsed update, as handed to the critical section. *)
Inductive update :=
  | CpuUpdate (id : cstr) (usage user sys idle : float)
  | MemUpdate (id : cstr) (used free swt swf : float).

Definition update_id (u : update) : cstr :=
  match u with
  | CpuUpdate id _ _ _ _ => id
  | MemUpdate id _ _ _ _ => id
  end.

Definition apply_update (u : update) (hs : list host_info_t)
  : result (list host_info_t) :=
  match u with
  | CpuUpdate id a b c d => cpu_update id a b c d hs
  | MemUpdate id a b c d => mem_update id a b c d hs
  end.

Fixpoint apply_updates (us : list update) (hs : list host_info_t)
  : result (list host_info_t) :=
  match us with
  | [] => Ok hs
  | u :: us' =>
      match apply_update u hs with
      | Ok hs' => apply_updates us' hs'
      | Undefined f => Undefined f
      end
  end.

(** The CPU half and the memory half of a record. *)
Definition cpu_part (h : host_info_t) : float * float * float * float * bool :=
  (cpu_usage h, cpu_user h, cpu_sys h, cpu_idle h, has_cpu h).

Definition mem_part (h : host_info_t) : float * float * float * float * bool :=
  (mem_used h, mem_free h, swap_t h, swap_f h, has_mem h).

(** The value the claims give a numeric field: zero when ISO C performs
    no conversion on it, what [atof] reads otherwise. *)
Definition field_value (f : cstr) : float :=
  if no_conversion f then fzero else atof f.

(** [h'] is a later state of the record [h]: a record in use keeps its
    id, and a flag that is set stays set. *)
Definition host_le (h h' : host_info_t) : Prop :=
  (ip h ≠ [] → ip h' = ip h) ∧
  (has_cpu h = true → has_cpu h' = true) ∧
  (has_mem h = true → has_mem h' = true).

Definition table_le (t t' : list host_info_t) : Prop := Forall2 host_le t t'.

(** A computation under which the table only grows in that sense. *)
Definition keeps {A} (c : M A) : Prop :=
  ∀ s a s', c s = Ok (a, s') → table_le (hosts s) (hosts s').

(** A computation that never runs out of the model's loop bound. *)
Definition bounded {A} (c : M A) : Prop :=
  ∀ s, c s ≠ Undefined OutOfFuel.

(** [strtok]'s saved pointer is inside [copy]. *)
Definition in_copy (s : state) : Prop := ∃ r, olds s = Some (Copy, r).

Definition stays_in_copy {A} (c : M A) : Prop :=
  ∀ s a s', in_copy s → c s = Ok (a, s') → in_copy s'.

(** [n] turns of the inner loop are enough from [line] in state [s]. *)
Definition enough (n : nat) (line : option charp) (s : state) : Prop :=
  match line with
  | None => True
  | Some (Copy, _) => 1 ≤ n
  | Some (Buf, _) => ∃ r, olds s = Some (Buf, r) ∧ length r + 2 ≤ n
  end.

(** Two states with the same table whose saved positions agree, or are
    the same place in [buf] with one more newline at the end of the second
    buffer. *)
Definition sim (s1 s2 : state) : Prop :=
  hosts s1 = hosts s2 ∧
  (olds s1 = olds s2 ∨
   ∃ r, olds s1 = Some (Buf, r) ∧ olds s2 = Some (Buf, r ++ [NL])).

Definition rsim {A} (r1 r2 : result (A * state)) : Prop :=
  match r1, r2 with
  | Ok (a1, s1), Ok (a2, s2) => a1 = a2 ∧ sim s1 s2
  | Undefined f1, Undefined f2 => f1 = f2
  | _, _ => False
  end.

(** What an update writes into the record it lands in. *)
Definition update_fields (u : update) : host_info_t → host_info_t :=
  match u with
  | CpuUpdate _ a b c d => set_cpu a b c d
  | MemUpdate _ a b c d => set_mem a b c d
  end.

(** A table whose entries in use come first: [used], then [free]. *)
Definition packed (t used free : list host_info_t) : Prop :=
  t = used ++ free ∧
  Forall (λ h, ip h ≠ []) used ∧
  Forall (λ h, ip h = []) free ∧
  length t = MAX_HOSTS.

(** The table holds [id], or has an unused entry for it. *)
Definition has_slot (id : cstr) (hs : list host_info_t) : Prop :=
  ∃ h, h ∈ hs ∧ (ip h = id ∨ ip h = []).

End Collector.

Arguments host_info_t : clear implicits.
Arguments state : clear implicits.
Arguments update : clear implicits.
Arguments M : clear implicits.

(** The ids of a sequence of updates in the order of their first arrival. *)
Definition note_id (seen : list cstr) (id : cstr) : list cstr :=
  if bool_decide (id ∈ seen) then seen else seen ++ [id].

Definition arrival_order (ids : list cstr) : list cstr :=
  fold_left note_id ids [].

(** The ids in the table after one more update for [id], [known] being
    the ids before it. *)
Definition step_ids (known : list cstr) (id : cstr) : list cstr :=
  if bool_decide (id ∈ known) then known
  else if length known <? MAX_HOSTS then known ++ [id]
  else known.

(** ** The display: [visualizer_thread] *)

Section Visualizer.

(** [fmt_f w x] is what [printf] writes for the conversion [%w.1f] of the
    [float] [x]; it is taken as given. *)
Context {float : Type}.
Variable fmt_f : nat → float → cstr.

Definition ESC : ascii := "027"%char.
Definition SPACE : ascii := " "%char.

Definition clear_screen : cstr := ESC :: cs "[2J" ++ ESC :: cs "[H".

Definition header : cstr :=
  cs "IP           CPU    usr   sys   idle   MemUsed  MemFree" ++ [NL].

Definition ruler : cstr := replicate 58 "-"%char ++ [NL].

(** [printf("%-12s ", h->ip)]: the id, padded with spaces to twelve
    columns, and a space.  [%s] reads up to a NUL: an array of 32
    characters without one is read past its end. *)
Definition print_ip (field : cstr) : result cstr :=
  if length field <? IP_SIZE
  then Ok (field ++ replicate (12 - length field) SPACE ++ [SPACE])
  else Undefined OutOfBounds.

Definition print_cpu (h : host_info_t float) : cstr :=
  if has_cpu h
  then fmt_f 5 (cpu_usage h) ++ SPACE :: fmt_f 5 (cpu_user h) ++
       SPACE :: fmt_f 5 (cpu_sys h) ++ SPACE :: fmt_f 6 (cpu_idle h) ++
       cs "   "
  else cs " --    --    --    --     ".

Definition print_mem (h : host_info_t float) : cstr :=
  if has_mem h
  then fmt_f 7 (mem_used h) ++ SPACE :: fmt_f 7 (mem_free h)
  else cs "   --       --".

(** The [for] loop over the table: what it prints. *)
Fixpoint print_hosts (hs : list (host_info_t float)) : result cstr :=
  match hs with
  | [] => Ok []
  | h :: hs' =>
      match ip h with
      | [] => print_hosts hs'
      | _ :: _ =>
          match print_ip (ip h) with
          | Undefined f => Undefined f
          | Ok id =>
              match print_hosts hs' with
              | Undefined f => Undefined f
              | Ok out => Ok (id ++ print_cpu h ++ print_mem h ++ NL :: out)
              end
          end
      end
  end.

(** One turn of the loop of [visualizer_thread], after its [sleep]: what
    it writes to the terminal for the table [hs]. *)
Definition visualizer_tick (hs : list (host_info_t float)) : result cstr :=
  match print_hosts hs with
  | Undefined f => Undefined f
  | Ok rows => Ok (clear_screen ++ header ++ ruler ++ rows)
  end.

(** What of a record the display depends on. *)
Definition shown (h : host_info_t float)
  : cstr * option (float * float * float * float) * option (float * float) :=
  (ip h,
   if has_cpu h
   then Some (cpu_usage h, cpu_user h, cpu_sys h, cpu_idle h) else None,
   if has_mem h then Some (mem_used h, mem_free h) else None).

End Visualizer.

(** ** More notions on tables *)

Section Tables.

Context {float : Type}.
Variable fzero : float.

(** [t'] differs from [t] in one entry at most. *)
Definition one_change (t t' : list (host_info_t float)) : Prop :=
  length t' = length t ∧ ∃ i, ∀ j, j ≠ i → t' !! j = t !! j.

(** Every unused entry is as the zero-initialised global has it. *)
Definition clean (t : list (host_info_t float)) : Prop :=
  Forall (λ h, ip h = [] → h = zero_host fzero) t.

End Tables.

(** ** The agents ([agent_cpu.c], [agent_mem.c]) *)

Module Agent.

(** [unsigned long] on the LP64 targets that have [/proc/stat]. *)
Definition ULONG_BITS : Z := 64.
Definition ULONG_MOD : Z := 2 ^ ULONG_BITS.

Definition usub (a b : Z) : Z := (a - b) mod ULONG_MOD.
Definition uadd (a b : Z) : Z := (a + b) mod ULONG_MOD.

Record cpu_stats_t := mk_cpu_stats {
  user : Z;
  nice : Z;
  system : Z;
  idle : Z
}.

(** The outcome of one call of [send]: [sent] bytes taken ([sent >= 0]),
    [-1] with [errno == EINTR], or [-1] with another [errno]. *)
Inductive send_outcome :=
  | Sent (sent : nat)
  | Eintr
  | Failed.

(** [send_all(fd, buf, len)] against the outcomes of the successive [send]
    calls, from [total] bytes already sent and [wire] already written to
    the socket: the value returned, the bytes then on the socket and the
    outcomes not consumed.  [None] when the outcomes run out while the
    loop is still going. *)
Fixpoint send_all (buf : list ascii) (outcomes : list send_outcome)
    (total : nat) (wire : list ascii)
  : option (Z * list ascii * list send_outcome) :=
  if total <? length buf then
    match outcomes with
    | [] => None
    | Sent 0 :: rest => Some ((-1)%Z, wire, rest)
    | Sent (S k) :: rest =>
        send_all buf rest (total + S k)
          (wire ++ take (S k) (drop total buf))
    | Eintr :: rest => send_all buf rest total wire
    | Failed :: rest => Some ((-1)%Z, wire, rest)
    end
  else Some (0%Z, wire, outcomes).

Section Messages.

(** The floating-point steps are taken as given: [pct n total] is the
    [double] that [100.0 * n / total] gives for the [unsigned long]s [n]
    and [total], [fmt2 x] what [%.2f] prints for [x]. *)
Context {double : Type}.
Variable pct : Z → Z → double.
Variable fmt2 : double → cstr.

(** [calcular_deltas]: usage, user, system and idle percentages. *)
Definition calcular_deltas (prev curr : cpu_stats_t)
  : double * double * double * double :=
  let delta_user := usub (user curr) (user prev) in
  let delta_nice := usub (nice curr) (nice prev) in
  let delta_system := usub (system curr) (system prev) in
  let delta_idle := usub (idle curr) (idle prev) in
  let total :=
    uadd (uadd (uadd delta_user delta_nice) delta_system) delta_idle in
  let total := if Z.eqb total 0 then 1%Z else total in
  (pct (usub total delta_idle) total,
   pct delta_user total,
   pct delta_system total,
   pct delta_idle total).

(** The line [snprintf] builds in [msg[256]], or [None] where the agent
    gives the message up because it does not fit. *)
Definition message (kind ip_logica : cstr) (a b c d : double)
  : option cstr :=
  let m := kind ++ SEMI :: ip_logica ++ SEMI :: fmt2 a ++ SEMI :: fmt2 b ++
           SEMI :: fmt2 c ++ SEMI :: fmt2 d ++ [NL] in
  if length m <? 256 then Some m else None.

Definition cpu_message (ip_logica : cstr)
    (cpu_usage user_pct system_pct idle_pct : double) : option cstr :=
  message (cs "CPU") ip_logica cpu_usage user_pct system_pct idle_pct.

Definition mem_message (ip_logica : cstr)
    (mem_used_mb mem_free_mb swap_total_mb swap_free_mb : double)
  : option cstr :=
  message (cs "MEM") ip_logica mem_used_mb mem_free_mb swap_total_mb
    swap_free_mb.

End Messages.

End Agent.

(** A field as it can stand in a line on the wire: not empty, and free of
    semicolons, newlines and NULs. *)
Definition wire_field (f : cstr) : bool :=
  is_field f &&
  forallb (λ c, negb (Ascii.eqb c NL) && negb (Ascii.eqb c NUL)) f.

(** ** The model run on text *)

Definition dstate0 : state Decimal.num := state0 Decimal.zero.

Definition run_parse_cpu (line : string) : result (list (host_info_t Decimal.num)) :=
  table_of (parse_cpu Decimal.atof (Copy, cs line) dstate0).

Definition run_parse_mem (line : string) : result (list (host_info_t Decimal.num)) :=
  table_of (parse_mem Decimal.atof (Copy, cs line) dstate0).

Definition run_client (reads : list string) : result (list (host_info_t Decimal.num)) :=
  table_of (client_thread Decimal.atof (map cs reads) dstate0).

Definition nl : string := String NL EmptyString.

(** Two-character ids [a0], [a1], ..., and the same behind a prefix. *)
Definition short_id (k : nat) : cstr :=
  [ascii_of_nat (97 + k / 10); ascii_of_nat (48 + k mod 10)].

Definition long_id (k : nat) : cstr := replicate IP_SIZE "a"%char ++ short_id k.

Definition d (n : Z) : Decimal.num := (n, 0%Z).

Definition cpu_updates (ids : list cstr) : list (update Decimal.num) :=
  map (λ id, CpuUpdate id (d 1) (d 2) (d 3) (d 4)) ids.

(** Stand-ins for the floating-point steps, to run the display and the
    agents: a [double] is held as a whole number of hundredths, and a
    number of the table is shown as mantissa and exponent. *)
Definition pct_fixed (n total : Z) : Z := (10000 * n / total)%Z.

Definition fmt2_fixed (h : Z) : cstr :=
  cs (pretty (h / 100)%Z) ++ "."%char ::
  cs (pretty (h mod 100 / 10)%Z) ++ cs (pretty (h mod 10)%Z).

Definition fmt_num (w : nat) (x : Decimal.num) : cstr :=
  let t := cs (pretty (fst x)) ++ "e"%char :: cs (pretty (snd x)) in
  replicate (w - length t) SPACE ++ t.

(** The table with one record, for [id], and nothing reported yet. *)
Definition one_host (id : cstr) : list (host_info_t Decimal.num) :=
  alter (set_ip id) 0 (hosts0 Decimal.zero).

(** The table after the CPU report [CPU;10.0.0.1;1;2;3;4]: its first
    entry is in use and has [has_cpu] set. *)
Definition cpu_reported : list (host_info_t Decimal.num) :=
  alter (set_cpu (d 1) (d 2) (d 3) (d 4)) 0 (one_host (cs "10.0.0.1")).

(** * Properties *)

(** ** Strings and tokens *)

Lemma cstr_eqb_eq (a b : cstr) : cstr_eqb a b = true ↔ a = b.
Proof.
  revert b. induction a as [|x a IH]; intros [|y b]; simpl; try (split; congruence).
  rewrite andb_true_iff, Ascii.eqb_eq, IH. split.
  - intros [-> ->]. reflexivity.
  - intros [= -> ->]. auto.
Qed.

Lemma cstr_eqb_neq (a b : cstr) : cstr_eqb a b = false ↔ a ≠ b.
Proof.
  rewrite <- cstr_eqb_eq. destruct (cstr_eqb a b); split; congruence.
Qed.

Lemma is_delim_semi (c : ascii) : is_delim semi c = Ascii.eqb c SEMI.
Proof. unfold is_delim, semi. simpl. apply orb_false_r. Qed.

(** [split_token] cuts off the first piece of [split_all]. *)
Lemma split_token_spec (delim s tok rest : cstr) :
  split_token delim s = (tok, rest) →
  ∃ X, split_all delim s = tok :: X ∧ List.filter nonempty X = tokens delim rest.
Proof.
  revert tok rest. induction s as [|c s IH]; simpl; intros tok rest H.
  - injection H as <- <-. exists []. auto.
  - destruct (is_delim delim c).
    + injection H as <- <-. exists (split_all delim s). auto.
    + destruct (split_token delim s) as [tok' rest'] eqn:E.
      injection H as <- <-.
      destruct (IH _ _ eq_refl) as (X & -> & HX). exists X. auto.
Qed.

Lemma skip_delims_tokens (delim s : cstr) :
  tokens delim (skip_delims delim s) = tokens delim s.
Proof.
  induction s as [|c s IH]; simpl; [reflexivity|].
  destruct (is_delim delim c) eqn:E; [|reflexivity].
  rewrite IH. unfold tokens. simpl. rewrite E. reflexivity.
Qed.

Lemma skip_delims_head (delim s : cstr) c r :
  skip_delims delim s = c :: r → is_delim delim c = false.
Proof.
  induction s as [|x s IH]; simpl; [discriminate|].
  destruct (is_delim delim x) eqn:E; [exact IH|].
  intros [= <- <-]. exact E.
Qed.

Lemma split_all_no_semi (f : cstr) :
  no_semi f = true → split_all semi f = [f].
Proof.
  induction f as [|c f IH]; simpl; [reflexivity|].
  rewrite andb_true_iff, negb_true_iff. intros [Hc Hf].
  rewrite is_delim_semi, Hc, (IH Hf). reflexivity.
Qed.

Lemma split_all_field_semi (f r : cstr) :
  no_semi f = true → split_all semi (f ++ SEMI :: r) = f :: split_all semi r.
Proof.
  induction f as [|c f IH]; simpl.
  - intros _. reflexivity.
  - rewrite andb_true_iff, negb_true_iff. intros [Hc Hf].
    rewrite is_delim_semi, Hc, (IH Hf). reflexivity.
Qed.

(** The fields a line is written from are the pieces it splits into. *)
Lemma split_all_join (fs : list cstr) :
  fs ≠ [] → Forall (λ f, no_semi f = true) fs → split_all semi (join fs) = fs.
Proof.
  induction fs as [|f fs IH]; [congruence|].
  intros _ H. inversion H as [|? ? Hf Hfs]; subst.
  destruct fs as [|f' fs].
  - simpl. apply split_all_no_semi. exact Hf.
  - change (join (f :: f' :: fs)) with (f ++ SEMI :: join (f' :: fs)).
    rewrite split_all_field_semi by exact Hf.
    rewrite IH; [reflexivity|congruence|exact Hfs].
Qed.

(** The tokens of a line are its non-empty fields. *)
Lemma tokens_join (fs : list cstr) :
  Forall (λ f, no_semi f = true) fs →
  tokens semi (join fs) = List.filter nonempty fs.
Proof.
  intros H. destruct fs as [|f fs]; [reflexivity|].
  unfold tokens. rewrite split_all_join; [reflexivity|congruence|exact H].
Qed.

Lemma is_field_no_semi (f : cstr) : is_field f = true → no_semi f = true.
Proof. unfold is_field. rewrite andb_true_iff. tauto. Qed.

Lemma is_field_nonempty (f : cstr) : is_field f = true → nonempty f = true.
Proof. unfold is_field. rewrite andb_true_iff. tauto. Qed.

Lemma tokens_semi_cons (x : cstr) : tokens semi (SEMI :: x) = tokens semi x.
Proof. reflexivity. Qed.

Lemma tokens_replicate_semi (n : nat) : tokens semi (replicate n SEMI) = [].
Proof.
  induction n as [|n IH]; [reflexivity|].
  simpl replicate. rewrite tokens_semi_cons. exact IH.
Qed.

(** A non-empty field in front of a semicolon is the first token. *)
Lemma tokens_field_semi (f x : cstr) :
  is_field f = true → tokens semi (f ++ SEMI :: x) = f :: tokens semi x.
Proof.
  intros H. unfold tokens.
  rewrite split_all_field_semi by (apply is_field_no_semi; exact H).
  simpl. rewrite (is_field_nonempty _ H). reflexivity.
Qed.

Lemma tokens_field_end (f : cstr) : is_field f = true → tokens semi f = [f].
Proof.
  intros H. unfold tokens.
  rewrite split_all_no_semi by (apply is_field_no_semi; exact H).
  simpl. rewrite (is_field_nonempty _ H). reflexivity.
Qed.

(** The tokens of a line of six non-empty fields, whatever follows the
    sixth. *)
Lemma tokens_six (a b c d e f tl : cstr) :
  is_field a = true → is_field b = true → is_field c = true →
  is_field d = true → is_field e = true → is_field f = true →
  tl = [] ∨ (∃ x, tl = SEMI :: x) →
  tokens semi (join [a; b; c; d; e; f] ++ tl)
  = a :: b :: c :: d :: e :: f :: tokens semi tl.
Proof.
  intros Ha Hb Hc Hd He Hf Htl. simpl join.
  repeat (rewrite <- ?app_assoc, <- ?app_comm_cons).
  rewrite !tokens_field_semi by assumption.
  destruct Htl as [-> | [x ->]].
  - rewrite app_nil_r. rewrite tokens_field_end by assumption. reflexivity.
  - rewrite tokens_field_semi by assumption. reflexivity.
Qed.

Section CollectorProofs.

Context {float : Type} (fzero : float) (atof : cstr → float).

Abbreviation host := (host_info_t float).
Abbreviation st := (state float).

(** ** [strtok] hands out the tokens one by one *)

Lemma strtok_spec (arg : option charp) (delim : cstr) (s : st) o str :
  match arg with Some p => Some p | None => olds s end = Some (o, str) →
  ∃ rest,
    strtok arg delim s
    = Ok (pair o <$> head (tokens delim str),
          mk_state (hosts s) (Some (o, rest)))
    ∧ tokens delim rest = tail (tokens delim str).
Proof.
  intros H. unfold strtok, bind, get_olds, put_olds, ret. rewrite H.
  rewrite <- (skip_delims_tokens delim str).
  destruct (skip_delims delim str) as [|c str'] eqn:E.
  - exists []. simpl. auto.
  - destruct (split_token delim (c :: str')) as [tok rest] eqn:E2.
    exists rest. simpl.
    destruct (split_token_spec _ _ _ _ E2) as (X & HX & HX').
    unfold tokens at 1 3. rewrite HX. simpl.
    assert (nonempty tok = true) as ->.
    { simpl in E2. rewrite (skip_delims_head _ _ _ _ E) in E2.
      destruct (split_token delim str'). injection E2 as <- _. reflexivity. }
    simpl. auto.
Qed.

(** One more [strtok(NULL, delim)], with the tokens still ahead known. *)
Ltac next_token T :=
  match goal with
  | |- context [strtok None ?d (mk_state ?h (Some (?o, ?r)))] =>
      let r' := fresh "r" in
      let E := fresh "E" in
      let T' := fresh "T" in
      destruct (strtok_spec None d (mk_state h (Some (o, r))) o r eq_refl)
        as (r' & E & T');
      rewrite T in E, T'; simpl in E, T';
      rewrite E; clear E T; cbn beta iota; cbn [hosts olds]
  end.

(** ** What the parsers do, by the tokens of the message *)

Lemma parse_cpu_tokens (msg : charp) (s : st) :
  table_of (parse_cpu atof msg s) =
  match tokens semi (snd msg) with
  | _ :: id :: u :: a :: b :: c :: _ =>
      cpu_update id (atof u) (atof a) (atof b) (atof c) (hosts s)
  | _ :: _ :: _ :: _ => Undefined NullPointer
  | _ => Ok (hosts s)
  end.
Proof.
  destruct msg as [o str]. unfold parse_cpu, bind. cbn [snd].
  destruct (strtok_spec (Some (o, str)) semi s o str eq_refl) as (r & E & T).
  rewrite E; clear E. cbn beta iota.
  destruct (tokens semi str) as [|t0 toks]; simpl in T.
  { next_token T. reflexivity. }
  destruct toks as [|id toks]; next_token T; [reflexivity|].
  destruct toks as [|u toks]; next_token T0; [reflexivity|].
  destruct toks as [|a toks]; next_token T; [reflexivity|].
  unfold atof_ptr at 1, ret at 1. cbn beta iota.
  destruct toks as [|b toks]; next_token T0; [reflexivity|].
  unfold atof_ptr at 1, ret at 1. cbn beta iota.
  destruct toks as [|c toks]; next_token T; [reflexivity|].
  unfold atof_ptr at 1, ret at 1. cbn beta iota.
  unfold on_hosts. cbn [hosts snd].
  destruct (cpu_update _ _ _ _ _ _); reflexivity.
Qed.

Lemma parse_mem_tokens (msg : charp) (s : st) :
  table_of (parse_mem atof msg s) =
  match tokens semi (snd msg) with
  | _ :: id :: a :: b :: c :: d :: _ =>
      mem_update id (atof a) (atof b) (atof c) (atof d) (hosts s)
  | _ :: _ :: _ => Undefined NullPointer
  | _ => Ok (hosts s)
  end.
Proof.
  destruct msg as [o str]. unfold parse_mem, bind. cbn [snd].
  destruct (strtok_spec (Some (o, str)) semi s o str eq_refl) as (r & E & T).
  rewrite E; clear E. cbn beta iota.
  destruct (tokens semi str) as [|t0 toks]; simpl in T.
  { next_token T. reflexivity. }
  destruct toks as [|id toks]; next_token T; [reflexivity|].
  destruct toks as [|a toks]; next_token T0; [reflexivity|].
  unfold atof_ptr at 1, ret at 1. cbn beta iota.
  destruct toks as [|b toks]; next_token T; [reflexivity|].
  unfold atof_ptr at 1, ret at 1. cbn beta iota.
  destruct toks as [|c toks]; next_token T0; [reflexivity|].
  unfold atof_ptr at 1, ret at 1. cbn beta iota.
  destruct toks as [|d toks]; next_token T; [reflexivity|].
  unfold atof_ptr at 1, ret at 1. cbn beta iota.
  unfold on_hosts. cbn [hosts snd].
  destruct (mem_update _ _ _ _ _ _); reflexivity.
Qed.

(** ** The table: [get_host] *)

Lemma strcmp_ip_fits (f id : cstr) :
  fits id → strcmp_ip f id = Ok (bool_decide (f = id)).
Proof.
  unfold fits, strcmp_ip, IP_SIZE. intros Hid.
  destruct (length f <? 32) eqn:Hf.
  - f_equal. destruct (cstr_eqb f id) eqn:E.
    + apply cstr_eqb_eq in E. rewrite bool_decide_eq_true_2; auto.
    + apply cstr_eqb_neq in E. rewrite bool_decide_eq_false_2; auto.
  - apply Nat.ltb_ge in Hf.
    rewrite take_ge by lia.
    destruct (cstr_eqb id f) eqn:E.
    + apply cstr_eqb_eq in E. subst. lia.
    + apply cstr_eqb_neq in E. rewrite bool_decide_eq_false_2; auto.
Qed.

Lemma find_ip_fits (hs : list host) (id : cstr) (i : nat) :
  fits id →
  find_ip hs id i = Ok ((λ p, i + p.1) <$> list_find (λ h, ip h = id) hs).
Proof.
  intros Hid. revert i. induction hs as [|h hs IH]; intros i; simpl.
  - reflexivity.
  - rewrite strcmp_ip_fits by exact Hid.
    destruct (decide (ip h = id)) as [E|E].
    + rewrite bool_decide_eq_true_2 by exact E. simpl.
      f_equal. f_equal. lia.
    + rewrite bool_decide_eq_false_2 by exact E. simpl.
      rewrite IH. f_equal.
      destruct (list_find _ hs) as [[j x]|]; simpl; [|reflexivity].
      f_equal. lia.
Qed.

Lemma find_free_find (hs : list host) (i : nat) :
  find_free hs i = (λ p, i + p.1) <$> list_find (λ h, ip h = []) hs.
Proof.
  revert i. induction hs as [|h hs IH]; intros i; simpl.
  - reflexivity.
  - destruct (decide (ip h = [])) as [E|E].
    + rewrite E. simpl. f_equal. lia.
    + simpl. destruct (ip h) as [|c r]; [congruence|].
      rewrite IH. destruct (list_find _ hs) as [[j x]|]; simpl; [|reflexivity].
      f_equal. lia.
Qed.

(** [get_host] for an id that fits: the first entry with that id, else
    the first unused entry, which takes the id. *)
Lemma get_host_fits (id : cstr) (hs : list host) :
  fits id →
  get_host id hs =
  match list_find (λ h, ip h = id) hs with
  | Some (i, _) => Ok (Some i, hs)
  | None =>
      match list_find (λ h, ip h = []) hs with
      | Some (i, _) => Ok (Some i, alter (set_ip id) i hs)
      | None => Ok (None, hs)
      end
  end.
Proof.
  intros Hid. unfold get_host, strncpy.
  rewrite (take_ge id IP_SIZE) by (unfold fits in Hid; lia).
  rewrite find_ip_fits by exact Hid.
  destruct (list_find (λ h, ip h = id) hs) as [[i x]|]; simpl; [reflexivity|].
  rewrite find_free_find.
  destruct (list_find (λ h, ip h = []) hs) as [[i x]|]; reflexivity.
Qed.

Lemma list_find_ip_ext (P : cstr → Prop) `{∀ x, Decision (P x)}
    (hs hs' : list host) :
  map ip hs = map ip hs' →
  fst <$> list_find (λ h, P (ip h)) hs = fst <$> list_find (λ h, P (ip h)) hs'.
Proof.
  revert hs'. induction hs as [|h hs IH]; intros [|h' hs']; simpl; try congruence.
  intros [= E1 E2]. rewrite E1.
  destruct (decide (P (ip h'))) as [E|E]; simpl; [reflexivity|].
  specialize (IH _ E2).
  destruct (list_find _ hs) as [[? ?]|], (list_find _ hs') as [[? ?]|];
    simpl in *; congruence.
Qed.

Lemma map_alter_same {B} (g : host → B) (f : host → host) i (hs : list host) :
  (∀ h, g (f h) = g h) → map g (alter f i hs) = map g hs.
Proof.
  intros Hf. revert i. induction hs as [|h hs IH]; intros [|i]; simpl;
    try reflexivity; f_equal; auto. apply IH.
Qed.

(** ** Records are kept and flags stay set *)

Lemma host_le_refl (h : host) : host_le h h.
Proof. unfold host_le. auto. Qed.

Lemma host_le_trans (h1 h2 h3 : host) :
  host_le h1 h2 → host_le h2 h3 → host_le h1 h3.
Proof.
  unfold host_le. intros (A1 & B1 & C1) (A2 & B2 & C2).
  repeat split; auto.
  intros H. rewrite A2; rewrite A1; auto.
Qed.

Lemma table_le_refl (t : list host) : table_le t t.
Proof. induction t; constructor; auto using host_le_refl. Qed.

Lemma table_le_trans (t1 t2 t3 : list host) :
  table_le t1 t2 → table_le t2 t3 → table_le t1 t3.
Proof.
  unfold table_le. intros H. revert t3.
  induction H; intros t3 H3; inversion H3; subst; constructor;
    eauto using host_le_trans.
Qed.

Lemma table_le_alter (f : host → host) (i : nat) (t : list host) :
  (∀ h, t !! i = Some h → host_le h (f h)) → table_le t (alter f i t).
Proof.
  revert i. induction t as [|h t IH]; intros i Hf; [constructor|].
  destruct i as [|i]; simpl.
  - constructor; [apply Hf; reflexivity|apply table_le_refl].
  - constructor; [apply host_le_refl|]. apply IH. intros h' Hh'. apply Hf. exact Hh'.
Qed.

Lemma find_free_slot (t : list host) (i : nat) :
  find_free t 0 = Some i → ∃ h, t !! i = Some h ∧ ip h = [].
Proof.
  rewrite find_free_find.
  destruct (list_find _ t) as [[j x]|] eqn:E; simpl; [|discriminate].
  intros [= <-]. apply list_find_Some in E as (E1 & E2 & _). eauto.
Qed.

Lemma get_host_le (id : cstr) (t t' : list host) r :
  get_host id t = Ok (r, t') → table_le t t'.
Proof.
  unfold get_host. destruct (find_ip t id 0) as [[j|]|]; try discriminate.
  - intros [= _ <-]. apply table_le_refl.
  - destruct (find_free t 0) as [i|] eqn:E.
    + intros [= _ <-]. apply table_le_alter. intros h Hh.
      destruct (find_free_slot _ _ E) as (h' & Hh' & Hip).
      assert (h' = h) as -> by congruence.
      unfold host_le. cbn [set_ip ip has_cpu has_mem]. rewrite Hip.
      repeat split; auto; congruence.
    + intros [= _ <-]. apply table_le_refl.
Qed.

Lemma cpu_update_le (id : cstr) (a b c d : float) (t t' : list host) :
  cpu_update id a b c d t = Ok t' → table_le t t'.
Proof.
  unfold cpu_update. destruct (get_host id t) as [[[i|] t1]|] eqn:E;
    try discriminate; intros [= <-].
  - eapply table_le_trans; [eapply get_host_le; exact E|].
    apply table_le_alter. intros h _. unfold host_le. simpl. auto.
  - eapply get_host_le; exact E.
Qed.

Lemma mem_update_le (id : cstr) (a b c d : float) (t t' : list host) :
  mem_update id a b c d t = Ok t' → table_le t t'.
Proof.
  unfold mem_update. destruct (get_host id t) as [[[i|] t1]|] eqn:E;
    try discriminate; intros [= <-].
  - eapply table_le_trans; [eapply get_host_le; exact E|].
    apply table_le_alter. intros h _. unfold host_le. simpl. auto.
  - eapply get_host_le; exact E.
Qed.

Lemma keeps_ret {A} (a : A) : keeps (float:=float) (ret a).
Proof. intros s a' s' [= _ <-]. apply table_le_refl. Qed.

Lemma keeps_bind {A B} (c : M float A) (k : A → M float B) :
  keeps c → (∀ a, keeps (k a)) → keeps (bind c k).
Proof.
  intros Hc Hk s b s'. unfold bind.
  destruct (c s) as [[a s1]|] eqn:E; [|discriminate].
  intros H. eapply table_le_trans; [eapply Hc; exact E|eapply Hk; exact H].
Qed.

Lemma strtok_hosts (arg : option charp) (delim : cstr) (s s' : st) r :
  strtok arg delim s = Ok (r, s') → hosts s' = hosts s.
Proof.
  unfold strtok, bind, get_olds, put_olds, ret, undefined.
  destruct (match arg with Some p => Some p | None => olds s end)
    as [[o str]|]; [|discriminate].
  destruct (skip_delims delim str); [intros [= _ <-]; reflexivity|].
  destruct (split_token delim _). intros [= _ <-]. reflexivity.
Qed.

Lemma keeps_strtok (arg : option charp) (delim : cstr) :
  keeps (float:=float) (strtok arg delim).
Proof.
  intros s r s' H. rewrite (strtok_hosts _ _ _ _ _ H). apply table_le_refl.
Qed.

Lemma keeps_atof_ptr (p : option charp) : keeps (atof_ptr atof p).
Proof.
  destruct p as [[o x]|]; simpl; [apply keeps_ret|].
  intros s a s'. discriminate.
Qed.

Lemma keeps_on_hosts (f : list host → result (list host)) :
  (∀ t t', f t = Ok t' → table_le t t') → keeps (on_hosts f).
Proof.
  intros Hf s a s'. unfold on_hosts.
  destruct (f (hosts s)) as [t'|] eqn:E; [|discriminate].
  intros [= _ <-]. simpl. apply Hf. exact E.
Qed.

Lemma keeps_parse_cpu (msg : charp) : keeps (parse_cpu atof msg).
Proof.
  unfold parse_cpu.
  repeat first
    [ apply keeps_strtok
    | apply keeps_atof_ptr
    | apply keeps_ret
    | apply keeps_on_hosts; apply cpu_update_le
    | apply keeps_bind; [|intros ?]
    | match goal with |- keeps (match ?x with _ => _ end) => destruct x end ].
Qed.

Lemma keeps_parse_mem (msg : charp) : keeps (parse_mem atof msg).
Proof.
  unfold parse_mem.
  repeat first
    [ apply keeps_strtok
    | apply keeps_atof_ptr
    | apply keeps_ret
    | apply keeps_on_hosts; apply mem_update_le
    | apply keeps_bind; [|intros ?]
    | match goal with |- keeps (match ?x with _ => _ end) => destruct x end ].
Qed.

Lemma keeps_handle_line (line : charp) : keeps (handle_line atof line).
Proof.
  unfold handle_line. destruct (fst line).
  - repeat match goal with |- keeps (if ?b then _ else _) => destruct b end;
      auto using keeps_parse_cpu, keeps_parse_mem, keeps_ret.
  - intros s a s'. discriminate.
Qed.

Lemma keeps_lines_loop (fuel : nat) (line : option charp) :
  keeps (lines_loop atof fuel line).
Proof.
  revert line. induction fuel as [|n IH]; intros [l|]; simpl;
    try apply keeps_ret; try (intros s a s'; discriminate).
  apply keeps_bind; [apply keeps_handle_line|intros _].
  apply keeps_bind; [apply keeps_strtok|intros next]. apply IH.
Qed.

Lemma keeps_process_buffer (data : list ascii) :
  keeps (process_buffer atof data).
Proof.
  unfold process_buffer. apply keeps_bind; [apply keeps_strtok|intros line].
  apply keeps_lines_loop.
Qed.

Lemma keeps_client_thread (reads : list (list ascii)) :
  keeps (client_thread atof reads).
Proof.
  induction reads as [|data reads IH]; simpl; [apply keeps_ret|].
  destruct data; [apply keeps_ret|].
  apply keeps_bind; [apply keeps_process_buffer|intros _; exact IH].
Qed.

(** ** The table: the entry an update lands in *)

(** After [get_host] returned an entry, that entry is the first one with
    the id. *)
Lemma get_host_found (id : cstr) (t t' : list host) (i : nat) :
  fits id → get_host id t = Ok (Some i, t') →
  ∃ h, list_find (λ h, ip h = id) t' = Some (i, h).
Proof.
  intros Hid. rewrite get_host_fits by exact Hid.
  destruct (list_find (λ h, ip h = id) t) as [[j x]|] eqn:E.
  { intros [= <- <-]. eauto. }
  destruct (list_find (λ h, ip h = []) t) as [[j x]|] eqn:E2;
    [|discriminate].
  intros [= <- <-]. exists (set_ip id x).
  apply list_find_Some in E2 as (Hj & _ & _).
  apply list_find_Some. split; [|split].
  - rewrite list_lookup_alter_eq, Hj. reflexivity.
  - reflexivity.
  - intros k y Hk Hlt. rewrite list_lookup_alter_ne in Hk by lia.
    rewrite list_find_None, Forall_forall in E.
    apply E. eapply list_elem_of_lookup_2. exact Hk.
Qed.

Lemma get_host_again (id : cstr) (t : list host) (i : nat) (h : host) :
  fits id → list_find (λ h, ip h = id) t = Some (i, h) →
  get_host id t = Ok (Some i, t).
Proof. intros Hid E. rewrite get_host_fits, E by exact Hid. reflexivity. Qed.

Lemma list_find_alter (id : cstr) (f : host → host) (t : list host) i j h :
  (∀ x, ip (f x) = ip x) →
  list_find (λ h, ip h = id) t = Some (i, h) →
  ∃ h', list_find (λ h, ip h = id) (alter f j t) = Some (i, h').
Proof.
  intros Hf E.
  pose proof (list_find_ip_ext (λ x, x = id) (alter f j t) t
                (map_alter_same ip f j t Hf)) as H.
  cbv beta in H. rewrite E in H. simpl in H.
  destruct (list_find _ (alter f j t)) as [[k x]|]; simpl in H;
    [|discriminate].
  injection H as ->. eauto.
Qed.

Lemma get_host_none (id : cstr) (t t' : list host) :
  get_host id t = Ok (None, t') → t' = t.
Proof.
  unfold get_host. destruct (find_ip t id 0) as [[j|]|]; try discriminate.
  destruct (find_free t 0); [discriminate|]. congruence.
Qed.

Lemma get_host_has_slot (id : cstr) (t : list host) :
  fits id → has_slot id t → ∃ i t', get_host id t = Ok (Some i, t').
Proof.
  intros Hid (h & Hin & Hh). rewrite get_host_fits by exact Hid.
  destruct (list_find (λ h, ip h = id) t) as [[j x]|] eqn:E; [eauto|].
  destruct (list_find (λ h, ip h = []) t) as [[j x]|] eqn:E2; [eauto|].
  exfalso. rewrite list_find_None, Forall_forall in E, E2.
  destruct Hh; [eapply E|eapply E2]; eauto.
Qed.

(** [get_host] writes nothing but an id. *)
Lemma get_host_parts (id : cstr) (t t' : list host) r :
  get_host id t = Ok (r, t') →
  map cpu_part t' = map cpu_part t ∧ map mem_part t' = map mem_part t.
Proof.
  unfold get_host. destruct (find_ip t id 0) as [[j|]|]; try discriminate.
  { intros [= _ <-]. auto. }
  destruct (find_free t 0); intros [= _ <-]; auto.
  split; apply map_alter_same; reflexivity.
Qed.

Lemma alter_idem (f : host → host) (i : nat) (t : list host) :
  (∀ h, f (f h) = f h) → alter f i (alter f i t) = alter f i t.
Proof.
  intros Hf. revert i. induction t as [|h t IH]; intros [|i]; simpl;
    try reflexivity; f_equal; auto. apply IH.
Qed.

(** An update that finds room lands in the record of its id. *)
Lemma cpu_update_applied (id : cstr) (a b c d : float) (t : list host) :
  fits id → has_slot id t →
  ∃ t' i h, cpu_update id a b c d t = Ok t' ∧
    list_find (λ h, ip h = id) t' = Some (i, h) ∧
    cpu_part h = (a, b, c, d, true).
Proof.
  intros Hid Hs. unfold cpu_update.
  destruct (get_host_has_slot id t Hid Hs) as (i & t1 & E). rewrite E.
  destruct (get_host_found id t t1 i Hid E) as (h & Hh).
  exists (alter (set_cpu a b c d) i t1), i, (set_cpu a b c d h).
  split; [reflexivity|]. split; [|reflexivity].
  apply list_find_Some in Hh as (H1 & H2 & H3).
  apply list_find_Some. split; [|split].
  - rewrite list_lookup_alter_eq, H1. reflexivity.
  - exact H2.
  - intros k y Hk Hlt. rewrite list_lookup_alter_ne in Hk by lia. eauto.
Qed.

Lemma mem_update_applied (id : cstr) (a b c d : float) (t : list host) :
  fits id → has_slot id t →
  ∃ t' i h, mem_update id a b c d t = Ok t' ∧
    list_find (λ h, ip h = id) t' = Some (i, h) ∧
    mem_part h = (a, b, c, d, true).
Proof.
  intros Hid Hs. unfold mem_update.
  destruct (get_host_has_slot id t Hid Hs) as (i & t1 & E). rewrite E.
  destruct (get_host_found id t t1 i Hid E) as (h & Hh).
  exists (alter (set_mem a b c d) i t1), i, (set_mem a b c d h).
  split; [reflexivity|]. split; [|reflexivity].
  apply list_find_Some in Hh as (H1 & H2 & H3).
  apply list_find_Some. split; [|split].
  - rewrite list_lookup_alter_eq, H1. reflexivity.
  - exact H2.
  - intros k y Hk Hlt. rewrite list_lookup_alter_ne in Hk by lia. eauto.
Qed.

Lemma cpu_update_frame (id : cstr) (a b c d : float) (t t' : list host) :
  cpu_update id a b c d t = Ok t' → map mem_part t' = map mem_part t.
Proof.
  unfold cpu_update. destruct (get_host id t) as [[[i|] t1]|] eqn:E;
    try discriminate; intros [= <-];
    apply get_host_parts in E as [_ E]; [|exact E].
  rewrite <- E. apply map_alter_same. reflexivity.
Qed.

Lemma mem_update_frame (id : cstr) (a b c d : float) (t t' : list host) :
  mem_update id a b c d t = Ok t' → map cpu_part t' = map cpu_part t.
Proof.
  unfold mem_update. destruct (get_host id t) as [[[i|] t1]|] eqn:E;
    try discriminate; intros [= <-];
    apply get_host_parts in E as [E _]; [|exact E].
  rewrite <- E. apply map_alter_same. reflexivity.
Qed.

Lemma mem_update_idem (id : cstr) (a b c d : float) (t t1 : list host) :
  fits id → mem_update id a b c d t = Ok t1 →
  mem_update id a b c d t1 = Ok t1.
Proof.
  intros Hid. unfold mem_update.
  destruct (get_host id t) as [[[i|] t']|] eqn:E; try discriminate;
    intros [= <-].
  - destruct (get_host_found id t t' i Hid E) as (h & Hh).
    destruct (list_find_alter id (set_mem a b c d) t' i i h
                (λ _, eq_refl) Hh) as (h' & Hh').
    rewrite (get_host_again id _ i h' Hid Hh').
    rewrite alter_idem; reflexivity.
  - pose proof (get_host_none _ _ _ E) as ->. rewrite E. reflexivity.
Qed.

(** ** The table fills in arrival order *)

Lemma list_find_ip_elem (id : cstr) (t : list host) :
  id ∈ map ip t ↔ is_Some (list_find (λ h, ip h = id) t).
Proof.
  split.
  - intros H. apply list_elem_of_fmap in H as (h & -> & Hh).
    eapply list_find_elem_of; eauto.
  - intros [[i h] H]. apply list_find_Some in H as (H1 & <- & _).
    apply list_elem_of_fmap. exists h. split; [reflexivity|].
    eapply list_elem_of_lookup_2. exact H1.
Qed.

Lemma get_host_packed (id : cstr) (used free : list host) :
  Forall (λ h, ip h ≠ []) used → Forall (λ h, ip h = []) free →
  id ≠ [] → fits id →
  get_host id (used ++ free) =
  match list_find (λ h, ip h = id) used with
  | Some (i, _) => Ok (Some i, used ++ free)
  | None =>
      match free with
      | h0 :: free' => Ok (Some (length used), used ++ set_ip id h0 :: free')
      | [] => Ok (None, used ++ free)
      end
  end.
Proof.
  intros Hu Hf Hne Hid. rewrite get_host_fits by exact Hid.
  destruct (list_find (λ h, ip h = id) used) as [[i h]|] eqn:E.
  { rewrite (list_find_app_l _ _ _ _ _ E). reflexivity. }
  assert (list_find (λ h, ip h = id) free = None) as E2.
  { apply list_find_None. eapply Forall_impl; [exact Hf|].
    simpl. intros h Hh. congruence. }
  rewrite (proj2 (list_find_app_None _ _ _) (conj E E2)).
  assert (list_find (λ h, ip h = []) used = None) as E3.
  { apply list_find_None. exact Hu. }
  rewrite (list_find_app_r _ _ _ E3).
  destruct free as [|h0 free']; [reflexivity|].
  inversion Hf as [|? ? Hh0 _]; subst. simpl.
  rewrite decide_True by exact Hh0. simpl.
  rewrite alter_app_r_alt by lia. rewrite Nat.sub_diag. reflexivity.
Qed.

(** One update on a packed table. *)
Lemma apply_update_packed (u : update float) (t used free : list host) :
  packed t used free → update_id u ≠ [] → fits (update_id u) →
  ∃ t' used' free',
    apply_update u t = Ok t' ∧ packed t' used' free' ∧
    map ip used' = step_ids (map ip used) (update_id u).
Proof.
  intros (-> & Hu & Hf & Hlen) Hne Hid.
  assert (∀ h, ip (update_fields u h) = ip h) as Hip.
  { intros h. destruct u; reflexivity. }
  assert (apply_update u (used ++ free)
          = match get_host (update_id u) (used ++ free) with
            | Undefined f => Undefined f
            | Ok (Some i, t') => Ok (alter (update_fields u) i t')
            | Ok (None, t') => Ok t'
            end) as ->.
  { destruct u; reflexivity. }
  rewrite (get_host_packed _ _ _ Hu Hf Hne Hid). unfold step_ids.
  destruct (list_find (λ h, ip h = update_id u) used) as [[i h]|] eqn:E.
  - exists (alter (update_fields u) i used ++ free),
      (alter (update_fields u) i used), free.
    pose proof (proj1 (list_find_Some _ _ _ _) E) as (Hi & _ & _).
    apply lookup_lt_Some in Hi.
    split; [rewrite alter_app_l by exact Hi; reflexivity|].
    split.
    + split; [reflexivity|]. split; [|split].
      * apply Forall_forall. intros x Hx.
        apply list_elem_of_lookup in Hx as [k Hk].
        rewrite Forall_forall in Hu.
        destruct (decide (i = k)) as [->|Hik].
        -- rewrite list_lookup_alter_eq in Hk.
           destruct (used !! k) as [y|] eqn:Ey; [|discriminate].
           injection Hk as <-. rewrite Hip. apply Hu.
           eapply list_elem_of_lookup_2. exact Ey.
        -- rewrite list_lookup_alter_ne in Hk by exact Hik.
           apply Hu. eapply list_elem_of_lookup_2. exact Hk.
      * exact Hf.
      * rewrite length_app, length_alter. rewrite length_app in Hlen.
        exact Hlen.
    + rewrite map_alter_same by exact Hip.
      rewrite bool_decide_eq_true_2; [reflexivity|].
      apply list_find_ip_elem. rewrite E. eauto.
  - assert (update_id u ∉ map ip used) as Hnot.
    { intros H. apply list_find_ip_elem in H as [x Hx]. congruence. }
    rewrite bool_decide_eq_false_2 by exact Hnot.
    rewrite length_app in Hlen. rewrite length_map.
    destruct free as [|h0 free'].
    + exists (used ++ []), used, []. rewrite app_nil_r.
      split; [reflexivity|].
      simpl in Hlen.
      destruct (length used <? MAX_HOSTS) eqn:L;
        [apply Nat.ltb_lt in L; lia|].
      split; [|reflexivity].
      split; [rewrite app_nil_r; reflexivity|].
      split; [exact Hu|]. split; [constructor|].
      rewrite ?length_app; simpl; lia.
    + inversion Hf as [|? ? Hh0 Hf']; subst.
      exists (used ++ update_fields u (set_ip (update_id u) h0) :: free'),
        (used ++ [update_fields u (set_ip (update_id u) h0)]), free'.
      split.
      { rewrite alter_app_r_alt by lia. rewrite Nat.sub_diag. reflexivity. }
      simpl in Hlen.
      destruct (length used <? MAX_HOSTS) eqn:L;
        [|apply Nat.ltb_ge in L; lia].
      split.
      * split; [rewrite <- app_assoc; reflexivity|].
        split; [|split].
        -- apply Forall_app. split; [exact Hu|].
           constructor; [|constructor]. rewrite Hip. exact Hne.
        -- exact Hf'.
        -- rewrite length_app. simpl. lia.
      * rewrite map_app. simpl. rewrite Hip. reflexivity.
Qed.

(** The ids of the table and the ids seen so far. *)
Lemma step_ids_note (K : list cstr) (id : cstr) :
  step_ids (take MAX_HOSTS K) id = take MAX_HOSTS (note_id K id).
Proof.
  unfold step_ids, note_id.
  destruct (decide (length K < MAX_HOSTS)) as [L|L].
  - rewrite (take_ge K) by lia.
    destruct (bool_decide (id ∈ K)); [rewrite take_ge by lia; reflexivity|].
    rewrite (proj2 (Nat.ltb_lt _ _) L).
    rewrite take_ge; [reflexivity|]. rewrite length_app. simpl. lia.
  - assert ((length (take MAX_HOSTS K) <? MAX_HOSTS) = false) as ->.
    { apply Nat.ltb_ge. rewrite length_take. lia. }
    assert (take MAX_HOSTS (K ++ [id]) = take MAX_HOSTS K) as Happ.
    { apply take_app_le. lia. }
    destruct (bool_decide (id ∈ take MAX_HOSTS K)) eqn:E1,
      (bool_decide (id ∈ K)) eqn:E2; auto.
Qed.

Lemma apply_updates_packed (us : list (update float)) (K : list cstr)
    (t used free : list host) :
  packed t used free → map ip used = take MAX_HOSTS K →
  Forall (λ u, update_id u ≠ [] ∧ fits (update_id u)) us →
  ∃ t' used' free',
    apply_updates us t = Ok t' ∧ packed t' used' free' ∧
    map ip used' = take MAX_HOSTS (fold_left note_id (map update_id us) K).
Proof.
  revert K t used free. induction us as [|u us IH]; intros K t used free.
  - intros Hp HK _. exists t, used, free. auto.
  - intros Hp HK Hus. inversion Hus as [|? ? [Hne Hid] Hus']; subst.
    destruct (apply_update_packed u t used free Hp Hne Hid)
      as (t1 & used1 & free1 & E1 & Hp1 & HK1).
    rewrite HK, step_ids_note in HK1.
    destruct (IH _ _ _ _ Hp1 HK1 Hus') as (t' & used' & free' & E & Hp' & HK').
    exists t', used', free'. simpl. rewrite E1. auto.
Qed.

Lemma snapshot_packed (t used free : list host) :
  packed t used free → snapshot t = used.
Proof.
  intros (-> & Hu & Hf & _). unfold snapshot.
  rewrite List.filter_app.
  assert (List.filter (λ h, nonempty (ip h)) used = used) as ->.
  { clear -Hu. induction Hu as [|h used Hh _ IH]; simpl; [reflexivity|].
    destruct (ip h); [congruence|]. simpl. rewrite IH. reflexivity. }
  assert (List.filter (λ h, nonempty (ip h)) free = []) as ->.
  { clear -Hf. induction Hf as [|h free Hh _ IH]; simpl; [reflexivity|].
    rewrite Hh. simpl. exact IH. }
  apply app_nil_r.
Qed.

(** ** The loop bound of [lines_loop] is never reached *)

Lemma bind_ok {A B} (c : M float A) (k : A → M float B) s b s' :
  bind c k s = Ok (b, s') → ∃ a s1, c s = Ok (a, s1) ∧ k a s1 = Ok (b, s').
Proof.
  unfold bind. destruct (c s) as [[a s1]|]; [eauto|discriminate].
Qed.

Lemma bounded_ret {A} (a : A) : bounded (float:=float) (ret a).
Proof. intros s. discriminate. Qed.

Lemma bounded_bind {A B} (c : M float A) (k : A → M float B) :
  bounded c → (∀ a, bounded (k a)) → bounded (bind c k).
Proof.
  intros Hc Hk s. unfold bind. specialize (Hc s).
  destruct (c s) as [[a s1]|f]; [apply Hk|].
  intros [= ->]. apply Hc. reflexivity.
Qed.

Lemma bounded_strtok (arg : option charp) (delim : cstr) :
  bounded (float:=float) (strtok arg delim).
Proof.
  intros s. unfold strtok, bind, get_olds, put_olds, ret, undefined.
  destruct (match arg with Some p => Some p | None => olds s end)
    as [[o str]|]; [|discriminate].
  destruct (skip_delims delim str); [discriminate|].
  destruct (split_token delim _). discriminate.
Qed.

Lemma bounded_atof_ptr (p : option charp) : bounded (atof_ptr atof p).
Proof. destruct p as [[o x]|]; intros s; discriminate. Qed.

Lemma find_ip_fault (t : list host) id i f :
  find_ip t id i = Undefined f → f = OutOfBounds.
Proof.
  revert i. induction t as [|h t IH]; intros i; simpl; [discriminate|].
  unfold strcmp_ip.
  destruct (length (ip h) <? IP_SIZE).
  - destruct (cstr_eqb (ip h) id); [discriminate|apply IH].
  - destruct (cstr_eqb (take IP_SIZE id) (ip h)); [congruence|apply IH].
Qed.

Lemma get_host_fault (id : cstr) (t : list host) f :
  get_host id t = Undefined f → f = OutOfBounds.
Proof.
  unfold get_host. destruct (find_ip t id 0) as [[j|]|f'] eqn:E.
  - discriminate.
  - destruct (find_free t 0); discriminate.
  - intros [= <-]. eapply find_ip_fault; exact E.
Qed.

Lemma bounded_cpu_update id a b c d :
  bounded (on_hosts (cpu_update (float:=float) id a b c d)).
Proof.
  intros s. unfold on_hosts, cpu_update.
  destruct (get_host id (hosts s)) as [[[i|] t1]|f] eqn:E; try discriminate.
  apply get_host_fault in E. subst. discriminate.
Qed.

Lemma bounded_mem_update id a b c d :
  bounded (on_hosts (mem_update (float:=float) id a b c d)).
Proof.
  intros s. unfold on_hosts, mem_update.
  destruct (get_host id (hosts s)) as [[[i|] t1]|f] eqn:E; try discriminate.
  apply get_host_fault in E. subst. discriminate.
Qed.

Lemma bounded_parse_cpu (msg : charp) : bounded (parse_cpu atof msg).
Proof.
  unfold parse_cpu.
  repeat first
    [ apply bounded_strtok
    | apply bounded_atof_ptr
    | apply bounded_ret
    | apply bounded_cpu_update
    | apply bounded_bind; [|intros ?]
    | match goal with |- bounded (match ?x with _ => _ end) => destruct x end ].
Qed.

Lemma bounded_parse_mem (msg : charp) : bounded (parse_mem atof msg).
Proof.
  unfold parse_mem.
  repeat first
    [ apply bounded_strtok
    | apply bounded_atof_ptr
    | apply bounded_ret
    | apply bounded_mem_update
    | apply bounded_bind; [|intros ?]
    | match goal with |- bounded (match ?x with _ => _ end) => destruct x end ].
Qed.

Lemma bounded_handle_line (line : charp) : bounded (handle_line atof line).
Proof.
  unfold handle_line. destruct (fst line).
  - repeat match goal with |- bounded (if ?b then _ else _) => destruct b end;
      auto using bounded_parse_cpu, bounded_parse_mem, bounded_ret.
  - intros s. discriminate.
Qed.

Lemma stays_ret {A} (a : A) : stays_in_copy (float:=float) (ret a).
Proof. intros s a' s' H [= _ <-]. exact H. Qed.

Lemma stays_bind {A B} (c : M float A) (k : A → M float B) :
  stays_in_copy c → (∀ a, stays_in_copy (k a)) → stays_in_copy (bind c k).
Proof.
  intros Hc Hk s b s' Hs H. apply bind_ok in H as (a & s1 & H1 & H2).
  eapply Hk; [|exact H2]. eapply Hc; [exact Hs|exact H1].
Qed.

Lemma stays_strtok (delim : cstr) :
  stays_in_copy (float:=float) (strtok None delim).
Proof.
  intros s a s' [r Hr] H.
  destruct (strtok_spec None delim s Copy r Hr) as (rest & E & _).
  rewrite E in H. injection H as _ <-. exists rest. reflexivity.
Qed.

Lemma stays_atof_ptr (p : option charp) : stays_in_copy (atof_ptr atof p).
Proof.
  destruct p as [[o x]|]; simpl; [apply stays_ret|].
  intros s a s' _. discriminate.
Qed.

Lemma stays_on_hosts (f : list host → result (list host)) :
  stays_in_copy (on_hosts f).
Proof.
  intros s a s' [r Hr]. unfold on_hosts.
  destruct (f (hosts s)); [|discriminate].
  intros [= _ <-]. exists r. exact Hr.
Qed.

Lemma parse_cpu_region (x : cstr) (s s' : st) u :
  parse_cpu atof (Copy, x) s = Ok (u, s') → in_copy s'.
Proof.
  unfold parse_cpu. intros H. apply bind_ok in H as (a & s1 & H1 & H2).
  destruct (strtok_spec (Some (Copy, x)) semi s Copy x eq_refl)
    as (rest & E & _).
  rewrite E in H1. injection H1 as _ <-.
  match type of H2 with ?c _ = _ => assert (stays_in_copy c) as Hst end.
  { repeat first
      [ apply stays_strtok
      | apply stays_atof_ptr
      | apply stays_ret
      | apply stays_on_hosts
      | apply stays_bind; [|intros ?]
      | match goal with
        | |- stays_in_copy (match ?x with _ => _ end) => destruct x
        end ]. }
  eapply Hst; [|exact H2]. exists rest. reflexivity.
Qed.

Lemma parse_mem_region (x : cstr) (s s' : st) u :
  parse_mem atof (Copy, x) s = Ok (u, s') → in_copy s'.
Proof.
  unfold parse_mem. intros H. apply bind_ok in H as (a & s1 & H1 & H2).
  destruct (strtok_spec (Some (Copy, x)) semi s Copy x eq_refl)
    as (rest & E & _).
  rewrite E in H1. injection H1 as _ <-.
  match type of H2 with ?c _ = _ => assert (stays_in_copy c) as Hst end.
  { repeat first
      [ apply stays_strtok
      | apply stays_atof_ptr
      | apply stays_ret
      | apply stays_on_hosts
      | apply stays_bind; [|intros ?]
      | match goal with
        | |- stays_in_copy (match ?x with _ => _ end) => destruct x
        end ]. }
  eapply Hst; [|exact H2]. exists rest. reflexivity.
Qed.

(** A line is handled only when it lies in [buf]; the saved pointer is
    then untouched, or left inside [copy] by a parser. *)
Lemma handle_line_effect (l : charp) (s s' : st) u :
  handle_line atof l s = Ok (u, s') →
  fst l = Buf ∧ (s' = s ∨ in_copy s').
Proof.
  unfold handle_line. destruct (fst l); [|discriminate].
  intros H. split; [reflexivity|].
  destruct (strncmp_eq _ (cs "CPU;") 4).
  { right. eapply parse_cpu_region. exact H. }
  destruct (strncmp_eq _ (cs "MEM;") 4).
  { right. eapply parse_mem_region. exact H. }
  left. unfold ret in H. congruence.
Qed.

Lemma skip_delims_length (delim s : cstr) :
  length (skip_delims delim s) ≤ length s.
Proof.
  induction s as [|c s IH]; simpl; [lia|].
  destruct (is_delim delim c); simpl; lia.
Qed.

Lemma split_token_length (delim s : cstr) :
  length (snd (split_token delim s)) ≤ length s - 1.
Proof.
  induction s as [|c s IH]; simpl; [lia|].
  destruct (is_delim delim c); simpl; [lia|].
  destruct (split_token delim s) as [tok rest]. simpl in *. lia.
Qed.

(** [strtok(s, delim)] is [strtok(NULL, delim)] with [s] as the saved
    pointer: what was saved before plays no part. *)
Lemma strtok_some (p : charp) (delim : cstr) (s : st) :
  strtok (Some p) delim s
  = strtok None delim (mk_state (hosts s) (Some p)).
Proof.
  unfold strtok, bind, get_olds, put_olds, ret. cbn [olds hosts].
  destruct p as [o str].
  destruct (skip_delims delim str) as [|c str']; [reflexivity|].
  destruct (split_token delim (c :: str')). reflexivity.
Qed.

(** A token handed out moves the saved pointer forward. *)
Lemma strtok_advance (delim : cstr) (s s' : st) o str tok :
  olds s = Some (o, str) →
  strtok None delim s = Ok (Some tok, s') →
  fst tok = o ∧ ∃ rest, olds s' = Some (o, rest) ∧ length rest < length str.
Proof.
  intros Ho. unfold strtok, bind, get_olds, put_olds, ret. rewrite Ho.
  pose proof (skip_delims_length delim str) as L1.
  destruct (skip_delims delim str) as [|c str'] eqn:E; [discriminate|].
  pose proof (split_token_length delim (c :: str')) as L2.
  destruct (split_token delim (c :: str')) as [t rest].
  intros [= <- <-]. split; [reflexivity|]. exists rest. simpl in *.
  split; [reflexivity|lia].
Qed.

Lemma lines_loop_bounded (n : nat) (line : option charp) (s : st) :
  enough n line s → lines_loop atof n line s ≠ Undefined OutOfFuel.
Proof.
  revert line s. induction n as [|n IH]; intros [[[|] x]|] s H; simpl in *;
    try discriminate; try lia.
  { destruct H as (r & _ & ?). lia. }
  destruct H as (r & Hr & Hn).
  unfold bind at 1.
  destruct (handle_line atof (Buf, x) s) as [[u s1]|f] eqn:E1.
  2: { intros [= ->]. exact (bounded_handle_line _ _ E1). }
  unfold bind.
  destruct (strtok None newline s1) as [[next s2]|f] eqn:E2.
  2: { intros [= ->]. exact (bounded_strtok _ _ _ E2). }
  apply IH.
  destruct next as [tok|]; [|exact I].
  apply handle_line_effect in E1 as [_ [->|[r1 Hr1]]].
  - destruct (strtok_advance _ _ _ _ _ _ Hr E2) as (Ho & rest & Hrest & L).
    destruct tok as [o t]. simpl in Ho. subst o. simpl.
    exists rest. split; [exact Hrest|lia].
  - destruct (strtok_advance _ _ _ _ _ _ Hr1 E2) as (Ho & _).
    destruct tok as [o t]. simpl in Ho. subst o. simpl. lia.
Qed.

(** [process_buffer] never runs out of its loop bound. *)
Lemma process_buffer_fuel (data : list ascii) :
  bounded (process_buffer atof data).
Proof.
  intros s. unfold process_buffer, bind.
  destruct (strtok (Some (Buf, c_str data)) newline s) as [[line s1]|f] eqn:E.
  2: { intros [= ->]. exact (bounded_strtok _ _ _ E). }
  apply lines_loop_bounded.
  destruct line as [tok|]; [|exact I].
  assert (length (c_str data) ≤ length data) as Lc.
  { clear. induction data as [|c d IH]; simpl; [lia|].
    destruct (Ascii.eqb c NUL); simpl; lia. }
  assert (strtok None newline (mk_state (hosts s) (Some (Buf, c_str data)))
          = Ok (Some tok, s1)) as E'.
  { rewrite <- E. symmetry. apply strtok_some. }
  destruct (strtok_advance newline
              (mk_state (hosts s) (Some (Buf, c_str data)))
              s1 Buf (c_str data) tok eq_refl E')
    as (Ho & rest & Hrest & L).
  destruct tok as [o t]. simpl in Ho. subst o. simpl.
  exists rest. split; [exact Hrest|lia].
Qed.

(** Hence [client_thread] never does either: the faults of the model are
    those of the C program. *)
Lemma client_thread_fuel (reads : list (list ascii)) :
  bounded (client_thread atof reads).
Proof.
  induction reads as [|data reads IH]; simpl; [apply bounded_ret|].
  destruct data; [apply bounded_ret|].
  apply bounded_bind; [apply process_buffer_fuel|intros _; exact IH].
Qed.

Lemma lines_loop_more (n : nat) (line : option charp) (s : st) :
  lines_loop atof n line s ≠ Undefined OutOfFuel →
  lines_loop atof (S n) line s = lines_loop atof n line s.
Proof.
  revert line s. induction n as [|n IH]; intros [l|] s H; try reflexivity.
  - exfalso. apply H. reflexivity.
  - change (bind (handle_line atof l)
              (λ _, bind (strtok None newline) (lines_loop atof (S n))) s
            = bind (handle_line atof l)
                (λ _, bind (strtok None newline) (lines_loop atof n)) s).
    change (bind (handle_line atof l)
              (λ _, bind (strtok None newline) (lines_loop atof n)) s
            ≠ Undefined OutOfFuel) in H.
    unfold bind in *.
    destruct (handle_line atof l s) as [[u s1]|f]; [|reflexivity].
    destruct (strtok None newline s1) as [[next s2]|f]; [|reflexivity].
    apply IH. exact H.
Qed.

(** ** The end of a read ends the line *)

Lemma sim_refl (s : st) : sim s s.
Proof. split; auto. Qed.

Lemma rsim_refl {A} (r : result (A * st)) : rsim r r.
Proof. destruct r as [[a s]|f]; simpl; auto using sim_refl. Qed.

Lemma rsim_table {A} (r1 r2 : result (A * st)) :
  rsim r1 r2 → table_of r1 = table_of r2.
Proof.
  destruct r1 as [[a1 s1]|f1], r2 as [[a2 s2]|f2]; simpl; try tauto.
  - intros [_ [H _]]. congruence.
  - congruence.
Qed.

Lemma rsim_bind {A B} (c : M float A) (k : A → M float B) (s1 s2 : st) :
  rsim (c s1) (c s2) →
  (∀ a t1 t2, sim t1 t2 → rsim (k a t1) (k a t2)) →
  rsim (bind c k s1) (bind c k s2).
Proof.
  unfold bind. intros Hc Hk.
  destruct (c s1) as [[a1 t1]|f1], (c s2) as [[a2 t2]|f2]; simpl in Hc;
    try tauto.
  destruct Hc as [-> Hs]. apply Hk. exact Hs.
Qed.

Lemma skip_delims_app_nl (r : cstr) :
  skip_delims newline (r ++ [NL])
  = match skip_delims newline r with
    | [] => []
    | c :: x => c :: x ++ [NL]
    end.
Proof.
  induction r as [|c r IH]; simpl; [reflexivity|].
  destruct (is_delim newline c); [exact IH|reflexivity].
Qed.

Lemma split_token_app_nl (x : cstr) :
  ∃ rest',
    split_token newline (x ++ [NL]) = (fst (split_token newline x), rest') ∧
    (rest' = snd (split_token newline x) ∨
     rest' = snd (split_token newline x) ++ [NL]).
Proof.
  induction x as [|c x IH]; simpl.
  - exists []. auto.
  - destruct (is_delim newline c).
    + exists (x ++ [NL]). auto.
    + destruct IH as (rest' & E & H). rewrite E.
      destruct (split_token newline x) as [tok rest]. simpl in *.
      exists rest'. auto.
Qed.

Lemma strtok_newline_sim (s1 s2 : st) :
  sim s1 s2 → rsim (strtok None newline s1) (strtok None newline s2).
Proof.
  intros [Hh [Ho|(r & H1 & H2)]].
  { assert (s1 = s2) as ->; [|apply rsim_refl].
    destruct s1, s2; simpl in *; congruence. }
  unfold strtok, bind, get_olds, put_olds, ret. rewrite H1, H2.
  rewrite skip_delims_app_nl.
  destruct (skip_delims newline r) as [|c x].
  { simpl. split; [reflexivity|]. split; simpl; auto. }
  destruct (split_token_app_nl (c :: x)) as (rest' & E & H).
  change (c :: x ++ [NL]) with ((c :: x) ++ [NL]). rewrite E.
  destruct (split_token newline (c :: x)) as [tok rest]. simpl in *.
  split; [reflexivity|]. split; simpl; [exact Hh|].
  destruct H as [->| ->]; [left; reflexivity|right; eauto].
Qed.

Lemma bind_strtok_some {B} (p : charp) (delim : cstr)
    (k : option charp → M float B) (s : st) :
  bind (strtok (Some p) delim) k s
  = bind (strtok None delim) k (mk_state (hosts s) (Some p)).
Proof. unfold bind. rewrite strtok_some. reflexivity. Qed.

Lemma parse_cpu_hosts (msg : charp) (s1 s2 : st) :
  hosts s1 = hosts s2 → parse_cpu atof msg s1 = parse_cpu atof msg s2.
Proof.
  intros H. unfold parse_cpu. rewrite !bind_strtok_some, H. reflexivity.
Qed.

Lemma parse_mem_hosts (msg : charp) (s1 s2 : st) :
  hosts s1 = hosts s2 → parse_mem atof msg s1 = parse_mem atof msg s2.
Proof.
  intros H. unfold parse_mem. rewrite !bind_strtok_some, H. reflexivity.
Qed.

Lemma handle_line_sim (l : charp) (s1 s2 : st) :
  sim s1 s2 → rsim (handle_line atof l s1) (handle_line atof l s2).
Proof.
  intros Hs. unfold handle_line. destruct (fst l); [|reflexivity].
  destruct (strncmp_eq _ (cs "CPU;") 4).
  { rewrite (parse_cpu_hosts _ s1 s2) by apply Hs. apply rsim_refl. }
  destruct (strncmp_eq _ (cs "MEM;") 4).
  { rewrite (parse_mem_hosts _ s1 s2) by apply Hs. apply rsim_refl. }
  simpl. auto.
Qed.

Lemma lines_loop_sim (n : nat) (line : option charp) (s1 s2 : st) :
  sim s1 s2 →
  rsim (lines_loop atof n line s1) (lines_loop atof n line s2).
Proof.
  revert line s1 s2. induction n as [|n IH]; intros [l|] s1 s2 Hs; simpl;
    auto.
  apply rsim_bind; [apply handle_line_sim; exact Hs|].
  intros _ t1 t2 Ht.
  apply rsim_bind; [apply strtok_newline_sim; exact Ht|].
  intros next u1 u2 Hu. apply IH. exact Hu.
Qed.

Lemma c_str_app_nl (data : list ascii) :
  c_str (data ++ [NL]) = c_str data ∨ c_str (data ++ [NL]) = c_str data ++ [NL].
Proof.
  induction data as [|c d IH]; simpl.
  - right. reflexivity.
  - destruct (Ascii.eqb c NUL); [left; reflexivity|].
    destruct IH as [-> | ->]; auto.
Qed.

Lemma process_buffer_hosts (data : list ascii) (s1 s2 : st) :
  hosts s1 = hosts s2 →
  process_buffer atof data s1 = process_buffer atof data s2.
Proof.
  intros H. unfold process_buffer. rewrite !bind_strtok_some, H. reflexivity.
Qed.

(** A buffer is handled as the same buffer with a newline added at its
    end. *)
Lemma process_buffer_newline (data : list ascii) (s : st) :
  rsim (process_buffer atof data s) (process_buffer atof (data ++ [NL]) s).
Proof.
  pose proof (process_buffer_fuel data s) as F.
  unfold process_buffer in *. rewrite bind_strtok_some in F.
  rewrite !bind_strtok_some.
  replace (length (data ++ [NL])) with (S (length data))
    by (rewrite length_app; simpl; lia).
  set (sA := mk_state (hosts s) (Some (Buf, c_str data))) in *.
  set (sB := mk_state (hosts s) (Some (Buf, c_str (data ++ [NL])))).
  assert (bind (strtok None newline)
            (λ line, lines_loop atof (S (length data)) line) sA
          = bind (strtok None newline)
              (λ line, lines_loop atof (S (S (length data))) line) sA) as ->.
  { unfold bind in *.
    destruct (strtok None newline sA) as [[line s1]|f]; [|reflexivity].
    symmetry. apply lines_loop_more. exact F. }
  apply rsim_bind.
  - apply strtok_newline_sim. split; [reflexivity|]. subst sA sB. simpl.
    destruct (c_str_app_nl data) as [-> | ->]; [left; reflexivity|].
    right. eauto.
  - intros line t1 t2 Ht. apply lines_loop_sim. exact Ht.
Qed.

Lemma client_thread_hosts (reads : list (list ascii)) (s1 s2 : st) :
  hosts s1 = hosts s2 →
  table_of (client_thread atof reads s1)
  = table_of (client_thread atof reads s2).
Proof.
  intros H. destruct reads as [|[|c data] reads]; simpl; try congruence.
  unfold bind. rewrite (process_buffer_hosts _ s1 s2 H). reflexivity.
Qed.

(** ** The claims *)

(** C1 (the code departs from it).  What [parse_cpu] and [parse_mem] do
    with a line that carries fewer than five fields after its prefix, [n]
    of them non-empty: the line is dropped with the table untouched only
    for [n < 2] ([parse_cpu]) or [n = 0] ([parse_mem]); otherwise a later
    token is missing and the null pointer [strtok] returns is handed to
    [atof]. *)
Theorem short_line_outcome (s : st) (o : object) (fs : list cstr) :
  Forall (λ f, no_semi f = true) fs →
  length fs < 5 →
  let n := length (List.filter nonempty fs) in
  table_of (parse_cpu atof (o, cs "CPU;" ++ join fs) s)
  = (if n <? 2 then Ok (hosts s) else Undefined NullPointer) ∧
  table_of (parse_mem atof (o, cs "MEM;" ++ join fs) s)
  = (if n <? 1 then Ok (hosts s) else Undefined NullPointer).
Proof.
  intros Hfs Hlen n.
  rewrite parse_cpu_tokens, parse_mem_tokens. cbn [snd].
  change (cs "CPU;") with (cs "CPU" ++ [SEMI]).
  change (cs "MEM;") with (cs "MEM" ++ [SEMI]).
  rewrite <- !app_assoc. cbn [app].
  rewrite !tokens_field_semi by reflexivity.
  rewrite (tokens_join fs Hfs).
  assert (n ≤ length fs) as Hn by apply List.filter_length_le.
  subst n.
  destruct (List.filter nonempty fs) as [|a [|b [|c [|d [|e l]]]]];
    simpl in *; auto; lia.
Qed.

(** C2 (the code departs from it).  Handling a line can have undefined
    behaviour: a read that delivers [MEM;10.0.0.1;5] and a newline makes
    [parse_mem] call [atof] on the null pointer [strtok] returns for the
    missing [free] field. *)
Theorem client_thread_bad_line_null (s : st) :
  client_thread atof [cs "MEM;10.0.0.1;5" ++ [NL]] s = Undefined NullPointer.
Proof. reflexivity. Qed.

(** C3 (as amended).  The end of a read ends the line: every read that
    delivers data is handled exactly as if a newline followed its last
    byte.  Adding a newline at the end of any one read of a connection,
    whatever is read before and after it, changes neither the table the
    connection leaves nor whether its behaviour is defined. *)
Theorem read_end_ends_line (before after : list (list ascii)) (c : ascii)
    (data : list ascii) (s : st) :
  table_of (client_thread atof (before ++ (c :: data) :: after) s)
  = table_of (client_thread atof (before ++ (c :: data ++ [NL]) :: after) s).
Proof.
  revert s. induction before as [|r before IH]; intros s.
  - cbn [app client_thread]. unfold bind.
    pose proof (process_buffer_newline (c :: data) s) as H.
    change ((c :: data) ++ [NL]) with (c :: data ++ [NL]) in H.
    destruct (process_buffer atof (c :: data) s) as [[u1 s1]|f1],
      (process_buffer atof (c :: data ++ [NL]) s) as [[u2 s2]|f2];
      simpl in H; try tauto.
    + apply client_thread_hosts. apply H.
    + simpl. congruence.
  - destruct r as [|x r]; [reflexivity|].
    rewrite <- !app_comm_cons. cbn [client_thread]. unfold bind.
    destruct (process_buffer atof (x :: r) s) as [[u1 s1]|f1];
      [apply IH|reflexivity].
Qed.

(** C7 (as amended).  An empty host id field is skipped, not refused:
    [strtok] steps over the doubled semicolon, so the line is parsed as the
    same line without the empty field and the next non-empty field is taken
    as the host id.  The line changes nothing when only semicolons follow
    the prefix. *)
Theorem empty_host_id_skipped (s : st) (o : object) (rest : cstr) (n : nat) :
  table_of (parse_cpu atof (o, cs "CPU;" ++ SEMI :: rest) s)
  = table_of (parse_cpu atof (o, cs "CPU;" ++ rest) s) ∧
  table_of (parse_mem atof (o, cs "MEM;" ++ SEMI :: rest) s)
  = table_of (parse_mem atof (o, cs "MEM;" ++ rest) s) ∧
  table_of (parse_cpu atof (o, cs "CPU;" ++ replicate n SEMI) s)
  = Ok (hosts s) ∧
  table_of (parse_mem atof (o, cs "MEM;" ++ replicate n SEMI) s)
  = Ok (hosts s).
Proof.
  rewrite !parse_cpu_tokens, !parse_mem_tokens. cbn [snd].
  change (cs "CPU;") with (cs "CPU" ++ [SEMI]).
  change (cs "MEM;") with (cs "MEM" ++ [SEMI]).
  rewrite <- !app_assoc. cbn [app].
  rewrite !tokens_field_semi by reflexivity.
  rewrite !tokens_semi_cons, tokens_replicate_semi. auto.
Qed.

(** C10 (as amended).  When the first five fields after the prefix are
    not empty, [parse_cpu] and [parse_mem] apply them and never read what
    follows the fifth: the outcome is that of the line cut after it. *)
Theorem extra_fields_not_read (s : st) (o : object)
    (id f1 f2 f3 f4 extra : cstr) :
  is_field id = true → is_field f1 = true → is_field f2 = true →
  is_field f3 = true → is_field f4 = true →
  (table_of (parse_cpu atof
               (o, join [cs "CPU"; id; f1; f2; f3; f4] ++ SEMI :: extra) s)
   = table_of (parse_cpu atof (o, join [cs "CPU"; id; f1; f2; f3; f4]) s) ∧
   table_of (parse_cpu atof
               (o, join [cs "CPU"; id; f1; f2; f3; f4] ++ SEMI :: extra) s)
   = cpu_update id (atof f1) (atof f2) (atof f3) (atof f4) (hosts s)) ∧
  (table_of (parse_mem atof
               (o, join [cs "MEM"; id; f1; f2; f3; f4] ++ SEMI :: extra) s)
   = table_of (parse_mem atof (o, join [cs "MEM"; id; f1; f2; f3; f4]) s) ∧
   table_of (parse_mem atof
               (o, join [cs "MEM"; id; f1; f2; f3; f4] ++ SEMI :: extra) s)
   = mem_update id (atof f1) (atof f2) (atof f3) (atof f4) (hosts s)).
Proof.
  intros Hid H1 H2 H3 H4.
  rewrite !parse_cpu_tokens, !parse_mem_tokens. cbn [snd].
  rewrite <- (app_nil_r (join [cs "CPU"; id; f1; f2; f3; f4])) at 2.
  rewrite <- (app_nil_r (join [cs "MEM"; id; f1; f2; f3; f4])) at 2.
  rewrite !tokens_six by (eauto || reflexivity).
  auto.
Qed.

(** C6 (as amended).  With a libc whose [atof] returns zero when no
    conversion can be performed, a [CPU;] or [MEM;] line whose five fields
    are all non-empty is not dropped: the update handed to the table has
    zero for every numeric field that is no number and the parsed value for
    the others, and where the table has the id or a free entry the record
    of that id holds these values with its flag set. *)
Theorem unparsable_field_is_zero
    (Hlibc : ∀ f, no_conversion f = true → atof f = fzero)
    (s : st) (o : object) (id f1 f2 f3 f4 : cstr) :
  is_field id = true → is_field f1 = true → is_field f2 = true →
  is_field f3 = true → is_field f4 = true →
  let v := field_value fzero atof in
  (table_of (parse_cpu atof (o, join [cs "CPU"; id; f1; f2; f3; f4]) s)
   = cpu_update id (v f1) (v f2) (v f3) (v f4) (hosts s) ∧
   (fits id → has_slot id (hosts s) →
    ∃ t' i h,
      table_of (parse_cpu atof (o, join [cs "CPU"; id; f1; f2; f3; f4]) s)
      = Ok t' ∧
      list_find (λ h, ip h = id) t' = Some (i, h) ∧
      cpu_part h = (v f1, v f2, v f3, v f4, true))) ∧
  (table_of (parse_mem atof (o, join [cs "MEM"; id; f1; f2; f3; f4]) s)
   = mem_update id (v f1) (v f2) (v f3) (v f4) (hosts s) ∧
   (fits id → has_slot id (hosts s) →
    ∃ t' i h,
      table_of (parse_mem atof (o, join [cs "MEM"; id; f1; f2; f3; f4]) s)
      = Ok t' ∧
      list_find (λ h, ip h = id) t' = Some (i, h) ∧
      mem_part h = (v f1, v f2, v f3, v f4, true))).
Proof.
  intros Hid H1 H2 H3 H4 v.
  assert (∀ f, v f = atof f) as Hv.
  { intros f. unfold v, field_value.
    destruct (no_conversion f) eqn:E; [symmetry; auto|reflexivity]. }
  rewrite parse_cpu_tokens, parse_mem_tokens. cbn [snd].
  rewrite <- (app_nil_r (join [cs "CPU"; id; f1; f2; f3; f4])).
  rewrite <- (app_nil_r (join [cs "MEM"; id; f1; f2; f3; f4])).
  rewrite !tokens_six by (eauto || reflexivity).
  rewrite !Hv.
  repeat split; auto using cpu_update_applied, mem_update_applied.
Qed.

(** C8 (as amended).  A CPU update leaves the memory half of every
    record as it was, and a MEM update leaves the CPU half of every record
    as it was.  For an id shorter than the 32 bytes of the [ip] array and a
    table that has the id or a free entry, a CPU update followed by a MEM
    update leaves the record of that id with both flags set, the CPU values
    of the first and the memory values of the second. *)
Theorem cpu_then_mem (t : list host) (id : cstr)
    (c1 c2 c3 c4 m1 m2 m3 m4 : float) :
  (∀ t', cpu_update id c1 c2 c3 c4 t = Ok t' →
         map mem_part t' = map mem_part t) ∧
  (∀ t', mem_update id m1 m2 m3 m4 t = Ok t' →
         map cpu_part t' = map cpu_part t) ∧
  (fits id → has_slot id t →
   ∃ t1 t2 i h,
     cpu_update id c1 c2 c3 c4 t = Ok t1 ∧
     mem_update id m1 m2 m3 m4 t1 = Ok t2 ∧
     t2 !! i = Some h ∧ ip h = id ∧
     cpu_part h = (c1, c2, c3, c4, true) ∧
     mem_part h = (m1, m2, m3, m4, true)).
Proof.
  split; [|split].
  - intros t'. apply cpu_update_frame.
  - intros t'. apply mem_update_frame.
  - intros Hid Hs.
    destruct (cpu_update_applied id c1 c2 c3 c4 t Hid Hs)
      as (t1 & i & h & E1 & Hfind & Hcpu).
    exists t1, (alter (set_mem m1 m2 m3 m4) i t1), i, (set_mem m1 m2 m3 m4 h).
    split; [exact E1|]. split.
    { unfold mem_update. rewrite (get_host_again id t1 i h Hid Hfind).
      reflexivity. }
    apply list_find_Some in Hfind as (Hi & Hip & _).
    split; [rewrite list_lookup_alter_eq, Hi; reflexivity|].
    split; [exact Hip|]. split; [exact Hcpu|reflexivity].
Qed.

(** C9 (as amended).  For a [MEM;] line with five non-empty fields whose
    id is shorter than the 32 bytes of the [ip] array, parsing the line
    twice in succession leaves the table that parsing it once leaves. *)
Theorem mem_line_idempotent (s : st) (o : object) (id f1 f2 f3 f4 : cstr) :
  is_field id = true → is_field f1 = true → is_field f2 = true →
  is_field f3 = true → is_field f4 = true → fits id →
  let line := (o, join [cs "MEM"; id; f1; f2; f3; f4]) in
  table_of (bind (parse_mem atof line) (λ _, parse_mem atof line) s)
  = table_of (parse_mem atof line s).
Proof.
  intros Hid H1 H2 H3 H4 Hfit line.
  assert (∀ s', table_of (parse_mem atof line s')
                = mem_update id (atof f1) (atof f2) (atof f3) (atof f4)
                    (hosts s')) as Hparse.
  { intros s'. rewrite parse_mem_tokens. unfold line. cbn [snd].
    rewrite <- (app_nil_r (join [cs "MEM"; id; f1; f2; f3; f4])).
    rewrite tokens_six by (eauto || reflexivity). reflexivity. }
  unfold bind. pose proof (Hparse s) as E.
  destruct (parse_mem atof line s) as [[u s1]|f]; [|reflexivity].
  simpl in E. rewrite Hparse. simpl.
  symmetry in E. apply (mem_update_idem _ _ _ _ _ _ _ Hfit E).
Qed.

Lemma apply_update_get_host (u : update float) (t : list host) :
  apply_update u t
  = match get_host (update_id u) t with
    | Undefined f => Undefined f
    | Ok (Some i, t') => Ok (alter (update_fields u) i t')
    | Ok (None, t') => Ok t'
    end.
Proof. destruct u; reflexivity. Qed.

Lemma packed_hosts0 : packed (hosts0 fzero) [] (hosts0 fzero).
Proof.
  split; [reflexivity|]. split; [constructor|]. split.
  - unfold hosts0. apply Forall_forall. intros h Hh.
    apply elem_of_replicate in Hh as [-> _]. reflexivity.
  - unfold hosts0. apply length_replicate.
Qed.

(** C4 (as amended).  For updates whose ids are not empty and shorter
    than the 32 bytes of the [ip] array, applied from the empty table: the
    records of the table are those of the first [MAX_HOSTS] distinct ids in
    arrival order, so [MAX_HOSTS] of them once more ids than that have
    arrived; a further update for an id that is not in the full table
    leaves the table as it is, and one for an id in the table is written
    into the record of that id. *)
Theorem table_capacity (us : list (update float)) :
  Forall (λ u, update_id u ≠ [] ∧ fits (update_id u)) us →
  ∃ t,
    apply_updates us (hosts0 fzero) = Ok t ∧
    map ip (snapshot t)
    = take MAX_HOSTS (arrival_order (map update_id us)) ∧
    (MAX_HOSTS < length (arrival_order (map update_id us)) →
     length (snapshot t) = MAX_HOSTS) ∧
    ∀ u, update_id u ≠ [] → fits (update_id u) →
      (update_id u ∉ map ip (snapshot t) →
       length (snapshot t) = MAX_HOSTS → apply_update u t = Ok t) ∧
      (update_id u ∈ map ip (snapshot t) →
       ∃ i h, list_find (λ h, ip h = update_id u) t = Some (i, h) ∧
              apply_update u t = Ok (alter (update_fields u) i t)).
Proof.
  intros Hus.
  destruct (apply_updates_packed us [] (hosts0 fzero) [] (hosts0 fzero)
              packed_hosts0 eq_refl Hus)
    as (t & used & free & E & Hp & Hids).
  exists t. split; [exact E|].
  rewrite (snapshot_packed _ _ _ Hp).
  split; [exact Hids|]. split.
  { intros Hlen. rewrite <- (length_map ip), Hids, length_take.
    unfold arrival_order in Hlen. lia. }
  intros u Hne Hid. rewrite apply_update_get_host.
  destruct Hp as (-> & Hu & Hf & Hlen).
  rewrite (get_host_packed _ _ _ Hu Hf Hne Hid). split.
  - intros Hnot Hfull.
    destruct (list_find (λ h, ip h = update_id u) used) as [[i h]|] eqn:Efind.
    { exfalso. apply Hnot. apply list_find_ip_elem. rewrite Efind. eauto. }
    rewrite length_app in Hlen.
    destruct free as [|h0 free']; [reflexivity|]. simpl in Hlen. lia.
  - intros Hin. apply list_find_ip_elem in Hin as [[i h] Efind].
    rewrite Efind. exists i, h. split; [|reflexivity].
    apply list_find_app_l. exact Efind.
Qed.

(** C5.  Whatever [parse_cpu], [parse_mem] or a whole run of
    [client_thread] does to the table, every entry stays where it is, an
    entry in use keeps its id, and a [has_cpu] or [has_mem] flag that was
    set is still set. *)
Theorem records_and_flags_kept (msg : charp) (reads : list (list ascii))
    (s s' : st) (u : unit) :
  parse_cpu atof msg s = Ok (u, s') ∨
  parse_mem atof msg s = Ok (u, s') ∨
  client_thread atof reads s = Ok (u, s') →
  table_le (hosts s) (hosts s').
Proof.
  intros [H|[H|H]].
  - exact (keeps_parse_cpu msg s u s' H).
  - exact (keeps_parse_mem msg s u s' H).
  - exact (keeps_client_thread reads s u s' H).
Qed.

End CollectorProofs.

(** * Further properties of the code *)

Section TableProofs.

Context {float : Type} (fzero : float).

Abbreviation host := (host_info_t float).

(** ** Entries and ids *)

Lemma get_host_shape (id : cstr) (t t1 : list host) (i : nat) :
  get_host id t = Ok (Some i, t1) →
  t1 = t ∨
  (t1 = alter (set_ip (strncpy id IP_SIZE)) i t ∧
   ∃ h0, t !! i = Some h0 ∧ ip h0 = []).
Proof.
  unfold get_host. destruct (find_ip t id 0) as [[j|]|]; try discriminate.
  { intros [= _ <-]. auto. }
  destruct (find_free t 0) as [j|] eqn:E; [|discriminate].
  intros [= <- <-]. right. split; [reflexivity|].
  apply find_free_slot. exact E.
Qed.

(** X1.  The entry [get_host] returns for an id is found again by the
    next [get_host] for that id, which changes nothing; and a different id
    gets a different entry. *)
Theorem get_host_round_trip (id1 id2 : cstr) (t t1 t2 : list host)
    (i j : nat) :
  fits id1 → fits id2 → id1 ≠ [] →
  get_host id1 t = Ok (Some i, t1) →
  get_host id1 t1 = Ok (Some i, t1) ∧
  (id2 ≠ id1 → get_host id2 t1 = Ok (Some j, t2) → j ≠ i).
Proof.
  intros H1 H2 Hne E1.
  destruct (get_host_found id1 t t1 i H1 E1) as (h & Hh).
  split; [eapply get_host_again; eauto|].
  intros Hdiff E2 ->.
  apply list_find_Some in Hh as (Hi & Hip & _).
  rewrite get_host_fits in E2 by exact H2.
  destruct (list_find (λ h, ip h = id2) t1) as [[k x]|] eqn:F.
  - injection E2 as -> _.
    apply list_find_Some in F as (Hk & Hx & _). congruence.
  - destruct (list_find (λ h, ip h = []) t1) as [[k x]|] eqn:F2;
      [|discriminate].
    injection E2 as -> _.
    apply list_find_Some in F2 as (Hk & Hx & _). congruence.
Qed.

Lemma one_change_alter (f : host → host) (i : nat) (t : list host) :
  one_change t (alter f i t).
Proof.
  split; [apply length_alter|]. exists i. intros j Hj.
  apply list_lookup_alter_ne. congruence.
Qed.

(** X2.  A CPU or MEM update changes one entry of the table at most,
    whatever its id. *)
Theorem update_one_entry (u : update float) (t t' : list host) :
  apply_update u t = Ok t' → one_change t t'.
Proof.
  rewrite apply_update_get_host.
  destruct (get_host (update_id u) t) as [[[i|] t1]|] eqn:E;
    try discriminate; intros [= <-].
  - destruct (get_host_shape _ _ _ _ E) as [-> | [-> _]].
    + apply one_change_alter.
    + rewrite list_alter_alter_eq. apply one_change_alter.
  - rewrite (get_host_none _ _ _ E). split; [reflexivity|].
    exists 0. reflexivity.
Qed.

(** A second update for the same id lands in the entry of the first. *)
Lemma apply_update_twice (u1 u2 : update float) (t t1 : list host) :
  update_id u2 = update_id u1 → fits (update_id u1) →
  apply_update u1 t = Ok t1 →
  apply_update u2 t1
  = match get_host (update_id u1) t with
    | Undefined f => Undefined f
    | Ok (Some i, t') =>
        Ok (alter (update_fields u2) i (alter (update_fields u1) i t'))
    | Ok (None, t') => Ok t'
    end.
Proof.
  intros Hid Hfit. rewrite !apply_update_get_host, Hid.
  destruct (get_host (update_id u1) t) as [[[i|] t']|] eqn:E;
    try discriminate; intros [= <-].
  - destruct (get_host_found _ _ _ _ Hfit E) as (h & Hh).
    assert (∀ x, ip (update_fields u1 x) = ip x) as Hip
      by (intros x; destruct u1; reflexivity).
    destruct (list_find_alter _ (update_fields u1) t' i i h Hip Hh)
      as (h' & Hh').
    rewrite (get_host_again _ _ i h' Hfit Hh'). reflexivity.
  - pose proof (get_host_none _ _ _ E) as ->. rewrite E. reflexivity.
Qed.

(** X3.  The latest report wins: a CPU (MEM) update for an id that fits,
    applied after another CPU (MEM) update for that id, leaves the table
    that it leaves when applied alone. *)
Theorem last_update_wins (id : cstr) (a1 b1 c1 d1 a2 b2 c2 d2 : float)
    (t : list host) :
  fits id →
  apply_updates [CpuUpdate id a1 b1 c1 d1; CpuUpdate id a2 b2 c2 d2] t
  = cpu_update id a2 b2 c2 d2 t ∧
  apply_updates [MemUpdate id a1 b1 c1 d1; MemUpdate id a2 b2 c2 d2] t
  = mem_update id a2 b2 c2 d2 t.
Proof.
  intros Hfit. split.
  - cbn [apply_updates].
    destruct (apply_update (CpuUpdate id a1 b1 c1 d1) t) as [t1|f] eqn:E.
    + rewrite (apply_update_twice (CpuUpdate id a1 b1 c1 d1)
                 (CpuUpdate id a2 b2 c2 d2) t t1 eq_refl Hfit E).
      unfold cpu_update. simpl.
      destruct (get_host id t) as [[[i|] t']|]; try reflexivity.
      rewrite list_alter_alter_eq. reflexivity.
    + simpl in E. unfold cpu_update in *.
      destruct (get_host id t) as [[[i|] t']|]; congruence.
  - cbn [apply_updates].
    destruct (apply_update (MemUpdate id a1 b1 c1 d1) t) as [t1|f] eqn:E.
    + rewrite (apply_update_twice (MemUpdate id a1 b1 c1 d1)
                 (MemUpdate id a2 b2 c2 d2) t t1 eq_refl Hfit E).
      unfold mem_update. simpl.
      destruct (get_host id t) as [[[i|] t']|]; try reflexivity.
      rewrite list_alter_alter_eq. reflexivity.
    + simpl in E. unfold mem_update in *.
      destruct (get_host id t) as [[[i|] t']|]; congruence.
Qed.

(** X4.  For one host, the order of its CPU report and its MEM report
    does not matter. *)
Theorem cpu_mem_commute (id : cstr) (c1 c2 c3 c4 m1 m2 m3 m4 : float)
    (t : list host) :
  fits id →
  apply_updates [CpuUpdate id c1 c2 c3 c4; MemUpdate id m1 m2 m3 m4] t
  = apply_updates [MemUpdate id m1 m2 m3 m4; CpuUpdate id c1 c2 c3 c4] t.
Proof.
  intros Hfit. cbn [apply_updates].
  destruct (apply_update (CpuUpdate id c1 c2 c3 c4) t) as [t1|f1] eqn:E1,
    (apply_update (MemUpdate id m1 m2 m3 m4) t) as [t2|f2] eqn:E2.
  - rewrite (apply_update_twice (CpuUpdate id c1 c2 c3 c4)
               (MemUpdate id m1 m2 m3 m4) t t1 eq_refl Hfit E1).
    rewrite (apply_update_twice (MemUpdate id m1 m2 m3 m4)
               (CpuUpdate id c1 c2 c3 c4) t t2 eq_refl Hfit E2).
    simpl. destruct (get_host id t) as [[[i|] t']|]; try reflexivity.
    rewrite !list_alter_alter_eq. reflexivity.
  - exfalso. simpl in E1, E2. unfold cpu_update, mem_update in *.
    destruct (get_host id t) as [[[i|] t']|]; congruence.
  - exfalso. simpl in E1, E2. unfold cpu_update, mem_update in *.
    destruct (get_host id t) as [[[i|] t']|]; congruence.
  - simpl in E1, E2. unfold cpu_update, mem_update in *.
    destruct (get_host id t) as [[[i|] t']|]; congruence.
Qed.

Lemma NoDup_note_id (K : list cstr) (id : cstr) :
  NoDup K → NoDup (note_id K id).
Proof.
  intros H. unfold note_id. case_bool_decide; [exact H|].
  apply NoDup_app. split; [exact H|]. split; [|apply NoDup_singleton].
  intros x Hx Hin. apply list_elem_of_singleton in Hin. congruence.
Qed.

Lemma NoDup_fold_note_id (ids K : list cstr) :
  NoDup K → NoDup (fold_left note_id ids K).
Proof.
  revert K. induction ids as [|id ids IH]; intros K H; simpl; [exact H|].
  apply IH. apply NoDup_note_id. exact H.
Qed.

(** X5.  No id is held twice: after any run of updates with non-empty ids
    that fit, started on the empty table, the ids of the records in use
    are pairwise different. *)
Theorem table_ids_distinct (us : list (update float)) (t : list host) :
  Forall (λ u, update_id u ≠ [] ∧ fits (update_id u)) us →
  apply_updates us (hosts0 fzero) = Ok t →
  NoDup (map ip (snapshot t)).
Proof.
  intros Hus E.
  destruct (apply_updates_packed us [] (hosts0 fzero) [] (hosts0 fzero)
              (packed_hosts0 fzero) eq_refl Hus)
    as (t' & used & free & E' & Hp & Hids).
  assert (t' = t) as -> by congruence.
  rewrite (snapshot_packed _ _ _ Hp), Hids.
  eapply sublist_NoDup; [|apply sublist_take].
  apply NoDup_fold_note_id. constructor.
Qed.

Lemma list_find_alter_other (P : host → Prop) `{∀ x, Decision (P x)}
    (f : host → host) (i : nat) (t : list host) :
  (∀ h, t !! i = Some h → ¬ P h ∧ ¬ P (f h)) →
  list_find P (alter f i t) = list_find P t.
Proof.
  revert i. induction t as [|h t IH]; intros i Hi; [reflexivity|].
  destruct i as [|i]; simpl.
  - destruct (Hi h eq_refl) as [H1 H2].
    rewrite !decide_False by assumption. reflexivity.
  - destruct (decide (P h)); [reflexivity|].
    change (list_alter f i t) with (alter f i t).
    rewrite IH; [reflexivity|]. intros x Hx. apply Hi. exact Hx.
Qed.

(** X6.  Other hosts are left alone: an update for an id that fits
    leaves the record of every other non-empty id where it was and as it
    was. *)
Theorem update_other_hosts (u : update float) (id' : cstr)
    (t t' : list host) :
  fits (update_id u) → id' ≠ update_id u → id' ≠ [] →
  apply_update u t = Ok t' →
  list_find (λ h, ip h = id') t' = list_find (λ h, ip h = id') t.
Proof.
  intros Hfit Hdiff Hne. rewrite apply_update_get_host.
  destruct (get_host (update_id u) t) as [[[i|] t1]|] eqn:E;
    try discriminate; intros [= <-].
  - assert (∀ x, ip (update_fields u x) = ip x) as Hip
      by (intros x; destruct u; reflexivity).
    destruct (get_host_found _ _ _ _ Hfit E) as (h & Hh).
    apply list_find_Some in Hh as (Hi & Hh & _).
    rewrite list_find_alter_other.
    2: { intros x Hx. rewrite Hip.
         assert (x = h) as -> by congruence. rewrite Hh. auto. }
    destruct (get_host_shape _ _ _ _ E) as [-> | [-> (h0 & H0 & Hip0)]];
      [reflexivity|].
    apply list_find_alter_other. intros x Hx.
    assert (x = h0) as -> by congruence. cbn [set_ip ip]. rewrite Hip0.
    unfold strncpy. rewrite take_ge by (unfold fits in Hfit; lia).
    split; congruence.
  - rewrite (get_host_none _ _ _ E). reflexivity.
Qed.

(** ** Unused entries *)

Lemma find_ip_some (t : list host) (id : cstr) (k i : nat) :
  find_ip t id k = Ok (Some i) →
  k ≤ i ∧ ∃ h, t !! (i - k) = Some h ∧ ip h = id ∧ fits (ip h).
Proof.
  revert k. induction t as [|h t IH]; intros k; simpl; [discriminate|].
  destruct (strcmp_ip (ip h) id) as [[|]|] eqn:E; [| |discriminate].
  - intros [= <-]. split; [lia|]. exists h. rewrite Nat.sub_diag.
    split; [reflexivity|]. unfold strcmp_ip in E.
    destruct (length (ip h) <? IP_SIZE) eqn:L.
    + injection E as E. apply cstr_eqb_eq in E. apply Nat.ltb_lt in L.
      split; assumption.
    + destruct (cstr_eqb (take IP_SIZE id) (ip h)); discriminate.
  - intros H. destruct (IH _ H) as (Hle & h' & Hl & Hip & Hf).
    split; [lia|]. exists h'. replace (i - k) with (S (i - S k)) by lia.
    auto.
Qed.

Lemma clean_alter (f : host → host) (i : nat) (t : list host) :
  (∀ h, t !! i = Some h → ip (f h) ≠ []) →
  clean fzero t → clean fzero (alter f i t).
Proof.
  unfold clean. intros Hf Hc. apply Forall_lookup. intros j h Hj.
  destruct (decide (j = i)) as [->|Hne].
  - rewrite list_lookup_alter_eq in Hj.
    destruct (t !! i) as [h0|] eqn:E; [|discriminate].
    injection Hj as <-. intros Hip. destruct (Hf h0 eq_refl Hip).
  - rewrite list_lookup_alter_ne in Hj by congruence.
    exact (Forall_lookup_1 _ _ _ _ Hc Hj).
Qed.

(** The entry [get_host] returns for a non-empty id is in use. *)
Lemma get_host_entry (id : cstr) (t t1 : list host) (i : nat) :
  id ≠ [] → get_host id t = Ok (Some i, t1) →
  (∃ h, t1 !! i = Some h ∧ ip h ≠ []) ∧ (clean fzero t → clean fzero t1).
Proof.
  intros Hne. unfold get_host.
  destruct (find_ip t id 0) as [[j|]|] eqn:F; try discriminate.
  - intros [= <- <-].
    destruct (find_ip_some _ _ _ _ F) as (_ & h & Hl & Hip & _).
    rewrite Nat.sub_0_r in Hl. split; [|auto].
    exists h. split; [exact Hl|congruence].
  - destruct (find_free t 0) as [j|] eqn:E; [|discriminate].
    intros [= <- <-]. destruct (find_free_slot _ _ E) as (h0 & H0 & Hip0).
    assert (strncpy id IP_SIZE ≠ []) as Hs
      by (destruct id; [congruence|discriminate]).
    split.
    + exists (set_ip (strncpy id IP_SIZE) h0).
      rewrite list_lookup_alter_eq, H0. split; [reflexivity|exact Hs].
    + apply clean_alter. intros h _. exact Hs.
Qed.

Lemma apply_update_clean (u : update float) (t t' : list host) :
  update_id u ≠ [] → clean fzero t → apply_update u t = Ok t' →
  clean fzero t'.
Proof.
  intros Hne Hc. rewrite apply_update_get_host.
  destruct (get_host (update_id u) t) as [[[i|] t1]|] eqn:E;
    try discriminate; intros [= <-].
  - destruct (get_host_entry _ _ _ _ Hne E) as [(h & Hh & Hip) Hc1].
    apply clean_alter; [|auto]. intros x Hx.
    assert (x = h) as -> by congruence. destruct u; exact Hip.
  - rewrite (get_host_none _ _ _ E). exact Hc.
Qed.

Lemma clean_hosts0 : clean fzero (hosts0 fzero).
Proof.
  unfold clean, hosts0. apply Forall_forall. intros h Hh.
  apply elem_of_replicate in Hh as [-> _]. reflexivity.
Qed.

End TableProofs.

(** ** Tokens, exactly *)

Lemma skip_delims_token (delim f y : cstr) :
  f ≠ [] → Forall (λ c, is_delim delim c = false) f →
  skip_delims delim (f ++ y) = f ++ y.
Proof.
  intros Hne Hf. destruct f as [|c f]; [congruence|].
  inversion Hf as [|? ? Hc _]; subst. simpl. rewrite Hc. reflexivity.
Qed.

Lemma split_token_delim (delim f x : cstr) (c : ascii) :
  Forall (λ c, is_delim delim c = false) f → is_delim delim c = true →
  split_token delim (f ++ c :: x) = (f, x).
Proof.
  intros Hf Hc. induction Hf as [|a f Ha _ IH]; simpl.
  - rewrite Hc. reflexivity.
  - rewrite Ha, IH. reflexivity.
Qed.

Lemma split_token_end (delim f : cstr) :
  Forall (λ c, is_delim delim c = false) f → split_token delim f = (f, []).
Proof.
  intros Hf. induction Hf as [|a f Ha _ IH]; simpl; [reflexivity|].
  rewrite Ha, IH. reflexivity.
Qed.

Lemma no_semi_free (f : cstr) :
  no_semi f = true → Forall (λ c, is_delim semi c = false) f.
Proof.
  unfold no_semi. rewrite forallb_forall, Forall_forall.
  intros H c Hc. rewrite is_delim_semi. apply negb_true_iff, H.
  apply list_elem_of_In. exact Hc.
Qed.

Lemma wire_field_is_field (f : cstr) : wire_field f = true → is_field f = true.
Proof. unfold wire_field. rewrite andb_true_iff. tauto. Qed.

Lemma wire_field_chars (f : cstr) :
  wire_field f = true → Forall (λ c, c ≠ NL ∧ c ≠ NUL) f.
Proof.
  unfold wire_field. rewrite andb_true_iff, forallb_forall, Forall_forall.
  intros [_ H] c Hc. apply list_elem_of_In, H in Hc.
  apply andb_true_iff in Hc as [H1 H2].
  apply negb_true_iff in H1, H2.
  split; intros ->; [rewrite Ascii.eqb_refl in H1|rewrite Ascii.eqb_refl in H2];
    discriminate.
Qed.

Lemma is_delim_newline (c : ascii) : is_delim newline c = Ascii.eqb c NL.
Proof. unfold is_delim, newline. simpl. apply orb_false_r. Qed.

Lemma no_newline_free (f : cstr) :
  Forall (λ c, c ≠ NL ∧ c ≠ NUL) f →
  Forall (λ c, is_delim newline c = false) f.
Proof.
  intros Hf. eapply Forall_impl; [exact Hf|].
  intros c [H _]. rewrite is_delim_newline.
  apply Ascii.eqb_neq. exact H.
Qed.

Lemma c_str_app (a b : list ascii) :
  Forall (λ c, c ≠ NL ∧ c ≠ NUL) a → c_str (a ++ b) = a ++ c_str b.
Proof.
  intros Ha. induction Ha as [|c a [_ Hc] _ IH]; simpl; [reflexivity|].
  apply Ascii.eqb_neq in Hc. rewrite Hc, IH. reflexivity.
Qed.

Lemma c_str_nul (a b : list ascii) : c_str (a ++ NUL :: b) = c_str a.
Proof.
  induction a as [|c a IH]; simpl; [reflexivity|].
  destruct (Ascii.eqb c NUL); [reflexivity|]. rewrite IH. reflexivity.
Qed.

Lemma c_str_length (data : list ascii) : length (c_str data) ≤ length data.
Proof.
  induction data as [|c d IH]; simpl; [lia|].
  destruct (Ascii.eqb c NUL); simpl; lia.
Qed.

Section HandlerProofs.

Context {float : Type} (fzero : float) (atof : cstr → float).

Abbreviation host := (host_info_t float).
Abbreviation st := (state float).

Lemma bind_assoc {A B C} (c : M float A) (g : A → M float B)
    (k : B → M float C) (s : st) :
  bind (bind c g) k s = bind c (λ a, bind (g a) k) s.
Proof. unfold bind. destruct (c s) as [[a s1]|]; reflexivity. Qed.

Lemma bind_ret {A B} (a : A) (k : A → M float B) (s : st) :
  bind (ret a) k s = k a s.
Proof. reflexivity. Qed.

(** [strtok(NULL, delim)] in front of a token. *)
Lemma bind_strtok_token {B} (delim f tl : cstr) (o : object)
    (k : option charp → M float B) (h : list host) :
  f ≠ [] → Forall (λ c, is_delim delim c = false) f →
  tl = [] ∨ (∃ c x, tl = c :: x ∧ is_delim delim c = true) →
  bind (strtok None delim) k (mk_state h (Some (o, f ++ tl)))
  = k (Some (o, f)) (mk_state h (Some (o, drop 1 tl))).
Proof.
  intros Hne Hf Htl.
  unfold bind at 1. unfold strtok, bind, get_olds, put_olds, ret.
  cbn [olds hosts]. rewrite skip_delims_token by assumption.
  destruct f as [|c0 f0] eqn:Ef; [congruence|]. rewrite <- Ef in *.
  assert (f ++ tl = c0 :: f0 ++ tl) as Hcons by (rewrite Ef; reflexivity).
  rewrite Hcons, <- Hcons.
  destruct Htl as [-> | (c & x & -> & Hc)].
  - rewrite app_nil_r, split_token_end by assumption. reflexivity.
  - rewrite (split_token_delim _ _ _ _ Hf Hc). reflexivity.
Qed.

(** [strtok(NULL, delim)] at the end of the string. *)
Lemma bind_strtok_nil {B} (delim : cstr) (o : object)
    (k : option charp → M float B) (h : list host) :
  bind (strtok None delim) k (mk_state h (Some (o, [])))
  = k None (mk_state h (Some (o, []))).
Proof. reflexivity. Qed.

Lemma field_parts (f : cstr) :
  is_field f = true → f ≠ [] ∧ Forall (λ c, is_delim semi c = false) f.
Proof.
  intros H. split.
  - apply is_field_nonempty in H. destruct f; [discriminate|congruence].
  - apply no_semi_free, is_field_no_semi, H.
Qed.

Ltac atof_step :=
  unfold atof_ptr at 1; cbv beta iota; rewrite bind_ret; cbv beta.

Ltac field_token H :=
  rewrite (bind_strtok_token semi _ _ _ _ _ (proj1 (field_parts _ H))
             (proj2 (field_parts _ H)))
    by (right; eauto using is_delim_semi);
  cbv beta; cbn [drop]; rewrite ?drop_0.

(** What [parse_cpu] does with six non-empty fields, and where it leaves
    [strtok]'s pointer: behind the semicolon that ends the sixth, if there
    is one. *)
Lemma parse_cpu_exact (o : object) (id f1 f2 f3 f4 tl : cstr) (s : st) :
  is_field id = true → is_field f1 = true → is_field f2 = true →
  is_field f3 = true → is_field f4 = true →
  tl = [] ∨ (∃ x, tl = SEMI :: x) →
  parse_cpu atof (o, join [cs "CPU"; id; f1; f2; f3; f4] ++ tl) s
  = on_hosts (cpu_update id (atof f1) (atof f2) (atof f3) (atof f4))
      (mk_state (hosts s) (Some (o, drop 1 tl))).
Proof.
  intros Hid H1 H2 H3 H4 Htl.
  assert (is_field (cs "CPU") = true) as H0 by reflexivity.
  unfold parse_cpu. rewrite bind_strtok_some. simpl join.
  repeat (rewrite <- ?app_assoc, <- ?app_comm_cons).
  match goal with
  | |- context [Some (o, ?a :: ?b :: ?c :: SEMI :: ?x)] =>
      change (a :: b :: c :: SEMI :: x) with (cs "CPU" ++ SEMI :: x)
  end.
  field_token H0. field_token Hid. field_token H1.
  rewrite bind_assoc. field_token H2. atof_step.
  rewrite bind_assoc. field_token H3. atof_step.
  rewrite bind_assoc.
  rewrite (bind_strtok_token semi f4 tl _ _ _ (proj1 (field_parts _ H4))
             (proj2 (field_parts _ H4))).
  - reflexivity.
  - destruct Htl as [->|[x ->]]; [auto|]. right. exists SEMI, x. auto.
Qed.

Lemma parse_mem_exact (o : object) (id f1 f2 f3 f4 tl : cstr) (s : st) :
  is_field id = true → is_field f1 = true → is_field f2 = true →
  is_field f3 = true → is_field f4 = true →
  tl = [] ∨ (∃ x, tl = SEMI :: x) →
  parse_mem atof (o, join [cs "MEM"; id; f1; f2; f3; f4] ++ tl) s
  = on_hosts (mem_update id (atof f1) (atof f2) (atof f3) (atof f4))
      (mk_state (hosts s) (Some (o, drop 1 tl))).
Proof.
  intros Hid H1 H2 H3 H4 Htl.
  assert (is_field (cs "MEM") = true) as H0 by reflexivity.
  unfold parse_mem. rewrite bind_strtok_some. simpl join.
  repeat (rewrite <- ?app_assoc, <- ?app_comm_cons).
  match goal with
  | |- context [Some (o, ?a :: ?b :: ?c :: SEMI :: ?x)] =>
      change (a :: b :: c :: SEMI :: x) with (cs "MEM" ++ SEMI :: x)
  end.
  field_token H0. field_token Hid.
  rewrite bind_assoc. field_token H1. atof_step.
  rewrite bind_assoc. field_token H2. atof_step.
  rewrite bind_assoc. field_token H3. atof_step.
  rewrite bind_assoc.
  rewrite (bind_strtok_token semi f4 tl _ _ _ (proj1 (field_parts _ H4))
             (proj2 (field_parts _ H4))).
  - reflexivity.
  - destruct Htl as [->|[x ->]]; [auto|]. right. exists SEMI, x. auto.
Qed.

(** ** The loop over the lines of a read *)

Lemma lines_loop_ge (n m : nat) (line : option charp) (s : st) :
  lines_loop atof n line s ≠ Undefined OutOfFuel → n ≤ m →
  lines_loop atof m line s = lines_loop atof n line s.
Proof.
  intros H Hle. induction Hle as [|m Hle IH]; [reflexivity|].
  rewrite lines_loop_more; rewrite IH; auto.
Qed.

(** Any bound above the length of what is left of the buffer will do. *)
Lemma loop_fuel (n m : nat) (r : cstr) (h : list host) :
  length r < n → length r < m →
  bind (strtok None newline) (λ l, lines_loop atof n l)
    (mk_state h (Some (Buf, r)))
  = bind (strtok None newline) (λ l, lines_loop atof m l)
      (mk_state h (Some (Buf, r))).
Proof.
  intros Hn Hm. unfold bind.
  destruct (strtok None newline (mk_state h (Some (Buf, r))))
    as [[line s1]|f] eqn:E; [|reflexivity].
  assert (∀ k, length r < k → enough k line s1) as Hen.
  { intros k Hk. destruct line as [tok|]; [|exact I].
    destruct (strtok_advance newline (mk_state h (Some (Buf, r))) s1 Buf r
                tok eq_refl E) as (Ho & rest & Hrest & L).
    destruct tok as [o t]. simpl in Ho. subst o. simpl.
    exists rest. split; [exact Hrest|lia]. }
  pose proof (lines_loop_bounded atof n line s1 (Hen n Hn)) as Bn.
  pose proof (lines_loop_bounded atof m line s1 (Hen m Hm)) as Bm.
  rewrite <- (lines_loop_ge n (max n m) line s1 Bn) by lia.
  rewrite <- (lines_loop_ge m (max n m) line s1 Bm) by lia.
  reflexivity.
Qed.

Lemma process_buffer_loop (data : list ascii) (s : st) :
  process_buffer atof data s
  = bind (strtok None newline) (λ l, lines_loop atof (S (length data)) l)
      (mk_state (hosts s) (Some (Buf, c_str data))).
Proof. unfold process_buffer. apply bind_strtok_some. Qed.

(** The first line of a read, when it is not empty, is handled first; the
    loop then goes on behind its newline. *)
Lemma process_buffer_first_line (L rest : list ascii) (s : st) :
  L ≠ [] → Forall (λ c, c ≠ NL ∧ c ≠ NUL) L →
  process_buffer atof (L ++ NL :: rest) s
  = bind (handle_line atof (Buf, L))
      (λ _, bind (strtok None newline)
              (λ l, lines_loop atof (length (L ++ NL :: rest)) l))
      (mk_state (hosts s) (Some (Buf, c_str rest))).
Proof.
  intros Hne HL. rewrite process_buffer_loop, (c_str_app L _ HL).
  change (c_str (NL :: rest)) with (NL :: c_str rest).
  rewrite (bind_strtok_token newline L (NL :: c_str rest) Buf _ _ Hne
             (no_newline_free L HL)).
  - reflexivity.
  - right. exists NL, (c_str rest). split; reflexivity.
Qed.




(** X8.  What follows a NUL byte in a read is never looked at. *)
Theorem bytes_after_nul_ignored (a b : list ascii) (s : st) :
  process_buffer atof (a ++ NUL :: b) s = process_buffer atof a s.
Proof.
  rewrite !process_buffer_loop, c_str_nul.
  pose proof (c_str_length a) as La.
  apply loop_fuel; rewrite ?length_app; simpl; lia.
Qed.

Lemma join_chars (fs : list cstr) :
  Forall (λ f, wire_field f = true) fs →
  Forall (λ c, c ≠ NL ∧ c ≠ NUL) (join fs).
Proof.
  induction fs as [|f fs IH]; intros H; [constructor|].
  inversion H as [|? ? Hf Hfs]; subst.
  destruct fs as [|g fs]; [apply wire_field_chars; exact Hf|].
  change (join (f :: g :: fs)) with (f ++ SEMI :: join (g :: fs)).
  apply Forall_app. split; [apply wire_field_chars; exact Hf|].
  constructor; [split; discriminate|]. apply IH. exact Hfs.
Qed.

(** A read whose first line is a [CPU;] line of six non-empty fields,
    with [tl] behind the sixth. *)
Lemma process_buffer_cpu_line (id f1 f2 f3 f4 tl rest : list ascii) (s : st) :
  wire_field id = true → wire_field f1 = true → wire_field f2 = true →
  wire_field f3 = true → wire_field f4 = true →
  Forall (λ c, c ≠ NL ∧ c ≠ NUL) tl →
  tl = [] ∨ (∃ x, tl = SEMI :: x) →
  length (join [cs "CPU"; id; f1; f2; f3; f4] ++ tl) < MAX_LINE →
  process_buffer atof
    ((join [cs "CPU"; id; f1; f2; f3; f4] ++ tl) ++ NL :: rest) s
  = match cpu_update id (atof f1) (atof f2) (atof f3) (atof f4) (hosts s) with
    | Undefined f => Undefined f
    | Ok t' =>
        match drop 1 tl with
        | [] => Ok (tt, mk_state t' (Some (Copy, [])))
        | _ :: _ => Undefined Overlap
        end
    end.
Proof.
  intros Hid H1 H2 H3 H4 Htl Hshape Hlen.
  set (L := join [cs "CPU"; id; f1; f2; f3; f4] ++ tl) in *.
  assert (Forall (λ c, c ≠ NL ∧ c ≠ NUL) L) as HL.
  { apply Forall_app. split; [|exact Htl].
    apply join_chars. repeat constructor; assumption. }
  assert (L ≠ []) as Hne by (unfold L; simpl; discriminate).
  rewrite (process_buffer_first_line L rest s Hne HL).
  assert (handle_line atof (Buf, L) = parse_cpu atof (Copy, L)) as ->.
  { unfold handle_line, strncpy. cbn [fst snd].
    rewrite (take_ge L) by (unfold MAX_LINE in *; lia). reflexivity. }
  unfold L at 1.
  unfold bind at 1.
  rewrite parse_cpu_exact by (auto using wire_field_is_field).
  unfold on_hosts. cbn [hosts olds].
  destruct (cpu_update id (atof f1) (atof f2) (atof f3) (atof f4) (hosts s))
    as [t'|f]; [|reflexivity].
  assert (Forall (λ c, c ≠ NL ∧ c ≠ NUL) (drop 1 tl)) as Hx.
  { destruct tl; simpl; [constructor|]. rewrite drop_0.
    inversion Htl; assumption. }
  destruct (drop 1 tl) as [|c x] eqn:Ex.
  - rewrite bind_strtok_nil.
    rewrite length_app. simpl. reflexivity.
  - rewrite <- (app_nil_r (c :: x)).
    rewrite (bind_strtok_token newline (c :: x) [] Copy _ _)
      by (auto using no_newline_free || congruence).
    rewrite length_app. simpl length.
    replace (length L + S (length rest)) with (S (length L + length rest))
      by lia.
    reflexivity.
Qed.

Lemma process_buffer_mem_line (id f1 f2 f3 f4 tl rest : list ascii) (s : st) :
  wire_field id = true → wire_field f1 = true → wire_field f2 = true →
  wire_field f3 = true → wire_field f4 = true →
  Forall (λ c, c ≠ NL ∧ c ≠ NUL) tl →
  tl = [] ∨ (∃ x, tl = SEMI :: x) →
  length (join [cs "MEM"; id; f1; f2; f3; f4] ++ tl) < MAX_LINE →
  process_buffer atof
    ((join [cs "MEM"; id; f1; f2; f3; f4] ++ tl) ++ NL :: rest) s
  = match mem_update id (atof f1) (atof f2) (atof f3) (atof f4) (hosts s) with
    | Undefined f => Undefined f
    | Ok t' =>
        match drop 1 tl with
        | [] => Ok (tt, mk_state t' (Some (Copy, [])))
        | _ :: _ => Undefined Overlap
        end
    end.
Proof.
  intros Hid H1 H2 H3 H4 Htl Hshape Hlen.
  set (L := join [cs "MEM"; id; f1; f2; f3; f4] ++ tl) in *.
  assert (Forall (λ c, c ≠ NL ∧ c ≠ NUL) L) as HL.
  { apply Forall_app. split; [|exact Htl].
    apply join_chars. repeat constructor; assumption. }
  assert (L ≠ []) as Hne by (unfold L; simpl; discriminate).
  rewrite (process_buffer_first_line L rest s Hne HL).
  assert (handle_line atof (Buf, L) = parse_mem atof (Copy, L)) as ->.
  { unfold handle_line, strncpy. cbn [fst snd].
    rewrite (take_ge L) by (unfold MAX_LINE in *; lia). reflexivity. }
  unfold L at 1.
  unfold bind at 1.
  rewrite parse_mem_exact by (auto using wire_field_is_field).
  unfold on_hosts. cbn [hosts olds].
  destruct (mem_update id (atof f1) (atof f2) (atof f3) (atof f4) (hosts s))
    as [t'|f]; [|reflexivity].
  assert (Forall (λ c, c ≠ NL ∧ c ≠ NUL) (drop 1 tl)) as Hx.
  { destruct tl; simpl; [constructor|]. rewrite drop_0.
    inversion Htl; assumption. }
  destruct (drop 1 tl) as [|c x] eqn:Ex.
  - rewrite bind_strtok_nil.
    rewrite length_app. simpl. reflexivity.
  - rewrite <- (app_nil_r (c :: x)).
    rewrite (bind_strtok_token newline (c :: x) [] Copy _ _)
      by (auto using no_newline_free || congruence).
    rewrite length_app. simpl length.
    replace (length L + S (length rest)) with (S (length L + length rest))
      by lia.
    reflexivity.
Qed.

(** ** What one read can do to the table *)

Lemma tokens_nonempty (delim str x : cstr) : x ∈ tokens delim str → x ≠ [].
Proof.
  unfold tokens. intros H.
  apply list_elem_of_In, List.filter_In in H as [_ H].
  destruct x; discriminate.
Qed.

(** A line is handled by one update with a non-empty id, or by none. *)
Lemma handle_line_update (l : charp) (s s1 : st) u :
  handle_line atof l s = Ok (u, s1) →
  hosts s1 = hosts s ∨
  ∃ upd, update_id upd ≠ [] ∧ apply_update upd (hosts s) = Ok (hosts s1).
Proof.
  unfold handle_line. destruct l as [[|] x]; cbn [fst snd]; [|discriminate].
  set (copy := strncpy x (MAX_LINE - 1)).
  destruct (strncmp_eq copy (cs "CPU;") 4);
    [|destruct (strncmp_eq copy (cs "MEM;") 4)].
  - intros H. pose proof (parse_cpu_tokens atof (Copy, copy) s) as T.
    rewrite H in T. cbn [table_of snd] in T.
    destruct (tokens semi copy)
      as [|t0 [|id [|f1 [|f2 [|f3 [|f4 tl]]]]]] eqn:Tk;
      try (left; congruence); try discriminate.
    right. exists (CpuUpdate id (atof f1) (atof f2) (atof f3) (atof f4)).
    split; [|simpl; congruence].
    apply (tokens_nonempty semi copy). rewrite Tk. right. left.
  - intros H. pose proof (parse_mem_tokens atof (Copy, copy) s) as T.
    rewrite H in T. cbn [table_of snd] in T.
    destruct (tokens semi copy)
      as [|t0 [|id [|f1 [|f2 [|f3 [|f4 tl]]]]]] eqn:Tk;
      try (left; congruence); try discriminate.
    right. exists (MemUpdate id (atof f1) (atof f2) (atof f3) (atof f4)).
    split; [|simpl; congruence].
    apply (tokens_nonempty semi copy). rewrite Tk. right. left.
  - intros [= _ ->]. left. reflexivity.
Qed.

(** Once [strtok]'s pointer is inside [copy], the loop over the lines can
    only end: a further line would be copied onto itself. *)
Lemma copy_ends_loop (n : nat) (s s' : st) u :
  in_copy s →
  bind (strtok None newline) (λ l, lines_loop atof n l) s = Ok (u, s') →
  hosts s' = hosts s.
Proof.
  intros [r Hr] H. apply bind_ok in H as (line & s1 & E1 & E2).
  pose proof (strtok_hosts _ _ _ _ _ E1) as Hh.
  destruct line as [tok|].
  - destruct (strtok_advance _ _ _ _ _ _ Hr E1) as (Ho & _).
    destruct n as [|n]; [discriminate|]. simpl in E2.
    unfold bind at 1, handle_line in E2. rewrite Ho in E2. discriminate.
  - assert (s' = s1) as ->
      by (destruct n; simpl in E2; unfold ret in E2; congruence).
    exact Hh.
Qed.

Lemma lines_loop_update (n : nat) (line : option charp) (s s' : st) u :
  lines_loop atof n line s = Ok (u, s') →
  hosts s' = hosts s ∨
  ∃ upd, update_id upd ≠ [] ∧ apply_update upd (hosts s) = Ok (hosts s').
Proof.
  revert line s. induction n as [|n IH]; intros line s;
    (destruct line as [l|]; [|intros [= _ <-]; left; reflexivity]);
    [discriminate|].
  simpl. intros H. apply bind_ok in H as (v & s1 & E1 & E2).
  destruct (handle_line_effect atof _ _ _ _ E1) as [_ [->|Hc]].
  - apply bind_ok in E2 as (next & s2 & E2 & E3).
    rewrite <- (strtok_hosts _ _ _ _ _ E2). exact (IH _ _ E3).
  - rewrite (copy_ends_loop _ _ _ _ Hc E2).
    exact (handle_line_update _ _ _ _ E1).
Qed.

Lemma process_buffer_update (data : list ascii) (s s' : st) u :
  process_buffer atof data s = Ok (u, s') →
  hosts s' = hosts s ∨
  ∃ upd, update_id upd ≠ [] ∧ apply_update upd (hosts s) = Ok (hosts s').
Proof.
  unfold process_buffer. intros H.
  apply bind_ok in H as (line & s1 & E1 & E2).
  rewrite <- (strtok_hosts _ _ _ _ _ E1). exact (lines_loop_update _ _ _ _ _ E2).
Qed.

(** X9.  A connection applies one update per read at most: what a run of
    [client_thread] with defined behaviour does to the table is what a
    sequence of no more updates than there were reads does to it, each for
    a non-empty id. *)
Theorem reads_apply_updates (reads : list (list ascii)) (s s' : st) u :
  client_thread atof reads s = Ok (u, s') →
  ∃ us, length us ≤ length reads ∧
        Forall (λ upd, update_id upd ≠ []) us ∧
        apply_updates us (hosts s) = Ok (hosts s').
Proof.
  revert s. induction reads as [|data reads IH]; intros s.
  { intros [= _ <-]. exists []. repeat split; [reflexivity|constructor]. }
  destruct data as [|c data].
  { intros [= _ <-]. exists []. repeat split; [simpl; lia|constructor]. }
  intros H. apply bind_ok in H as (v & s1 & E1 & E2).
  destruct (IH _ E2) as (us & Hlen & Hne & Hus).
  destruct (process_buffer_update _ _ _ _ E1) as [Hh|(upd & Hid & Hupd)].
  - exists us. rewrite <- Hh. repeat split; [simpl; lia|exact Hne|exact Hus].
  - exists (upd :: us). repeat split; [simpl; lia|constructor; assumption|].
    cbn [apply_updates]. rewrite Hupd. exact Hus.
Qed.

(** X10.  Unused entries stay as the zero-initialised table has them,
    whatever the connections send: no record without an id ever carries a
    value or a flag. *)
Theorem unused_entries_stay_zero (reads : list (list ascii)) (s s' : st) u :
  clean fzero (hosts s) →
  client_thread atof reads s = Ok (u, s') →
  clean fzero (hosts s').
Proof.
  revert s. induction reads as [|data reads IH]; intros s Hc.
  { intros [= _ <-]. exact Hc. }
  destruct data as [|c data].
  { intros [= _ <-]. exact Hc. }
  intros H. apply bind_ok in H as (v & s1 & E1 & E2).
  apply (IH s1); [|exact E2].
  destruct (process_buffer_update _ _ _ _ E1) as [Hh|(upd & Hid & Hupd)].
  - rewrite Hh. exact Hc.
  - exact (apply_update_clean fzero _ _ _ Hid Hc Hupd).
Qed.

(** X11.  Of a read that starts with a complete [CPU;] or [MEM;] line,
    that line is applied and nothing else: whatever follows its newline in
    the same read is dropped. *)
Theorem rest_of_read_dropped (id f1 f2 f3 f4 rest : list ascii) (s : st) :
  wire_field id = true → wire_field f1 = true → wire_field f2 = true →
  wire_field f3 = true → wire_field f4 = true →
  length (join [cs "CPU"; id; f1; f2; f3; f4]) < MAX_LINE →
  table_of (process_buffer atof
              (join [cs "CPU"; id; f1; f2; f3; f4] ++ NL :: rest) s)
  = cpu_update id (atof f1) (atof f2) (atof f3) (atof f4) (hosts s) ∧
  table_of (process_buffer atof
              (join [cs "MEM"; id; f1; f2; f3; f4] ++ NL :: rest) s)
  = mem_update id (atof f1) (atof f2) (atof f3) (atof f4) (hosts s).
Proof.
  intros Hid H1 H2 H3 H4 Hlen. split.
  - pose proof (process_buffer_cpu_line id f1 f2 f3 f4 [] rest s
                  Hid H1 H2 H3 H4 (Forall_nil_2 _) (or_introl eq_refl)) as E.
    rewrite app_nil_r in E. rewrite (E Hlen).
    destruct (cpu_update id (atof f1) (atof f2) (atof f3) (atof f4) (hosts s));
      reflexivity.
  - pose proof (process_buffer_mem_line id f1 f2 f3 f4 [] rest s
                  Hid H1 H2 H3 H4 (Forall_nil_2 _) (or_introl eq_refl)) as E.
    rewrite app_nil_r in E. rewrite (E Hlen).
    destruct (mem_update id (atof f1) (atof f2) (atof f3) (atof f4) (hosts s));
      reflexivity.
Qed.

(** X12.  A complete line with a further non-empty field behind the
    sixth takes the handler out of defined behaviour once it is applied:
    the loop takes the unread tail inside [copy] for the next line and
    copies it onto itself. *)
Theorem extra_field_overlap (id f1 f2 f3 f4 x rest : list ascii) (s : st) :
  wire_field id = true → wire_field f1 = true → wire_field f2 = true →
  wire_field f3 = true → wire_field f4 = true →
  x ≠ [] → Forall (λ c, c ≠ NL ∧ c ≠ NUL) x →
  length (join [cs "CPU"; id; f1; f2; f3; f4] ++ SEMI :: x) < MAX_LINE →
  fits id → has_slot id (hosts s) →
  process_buffer atof
    ((join [cs "CPU"; id; f1; f2; f3; f4] ++ SEMI :: x) ++ NL :: rest) s
  = Undefined Overlap ∧
  process_buffer atof
    ((join [cs "MEM"; id; f1; f2; f3; f4] ++ SEMI :: x) ++ NL :: rest) s
  = Undefined Overlap.
Proof.
  intros Hid H1 H2 H3 H4 Hx Hchars Hlen Hfit Hslot.
  assert (Forall (λ c, c ≠ NL ∧ c ≠ NUL) (SEMI :: x)) as Htl
    by (constructor; [split; discriminate|exact Hchars]).
  assert (SEMI :: x = [] ∨ ∃ y, SEMI :: x = SEMI :: y) as Hshape
    by (right; eauto).
  destruct x as [|c x]; [congruence|]. split.
  - rewrite (process_buffer_cpu_line id f1 f2 f3 f4 (SEMI :: c :: x) rest s
               Hid H1 H2 H3 H4 Htl Hshape Hlen).
    destruct (cpu_update_applied id (atof f1) (atof f2) (atof f3) (atof f4)
                (hosts s) Hfit Hslot) as (t' & _ & _ & -> & _).
    reflexivity.
  - rewrite (process_buffer_mem_line id f1 f2 f3 f4 (SEMI :: c :: x) rest s
               Hid H1 H2 H3 H4 Htl Hshape Hlen).
    destruct (mem_update_applied id (atof f1) (atof f2) (atof f3) (atof f4)
                (hosts s) Hfit Hslot) as (t' & _ & _ & -> & _).
    reflexivity.
Qed.

End HandlerProofs.

(** ** The display *)

Section DisplayProofs.

Context {float : Type} (fmt_f : nat → float → cstr).

Abbreviation host := (host_info_t float).

Lemma print_hosts_defined (t : list host) :
  Forall (λ h, fits (ip h)) t → ∃ out, print_hosts fmt_f t = Ok out.
Proof.
  induction 1 as [|h t Hh _ [out IH]]; [exists []; reflexivity|].
  cbn [print_hosts]. destruct (ip h) as [|c r] eqn:E; [eauto|].
  unfold print_ip. unfold fits in Hh.
  rewrite (proj2 (Nat.ltb_lt _ _) Hh), IH. eauto.
Qed.

Lemma print_hosts_overrun (t : list host) :
  Exists (λ h, ¬ fits (ip h)) t →
  print_hosts fmt_f t = Undefined OutOfBounds.
Proof.
  induction 1 as [h t Hh|h t _ IH]; cbn [print_hosts].
  - unfold fits in Hh. unfold print_ip.
    rewrite (proj2 (Nat.ltb_ge _ _)) by lia.
    destruct (ip h); [simpl in Hh; unfold IP_SIZE in Hh; lia|reflexivity].
  - rewrite IH. destruct (ip h); [reflexivity|].
    unfold print_ip. destruct (_ <? _); reflexivity.
Qed.

(** X13.  A turn of the display has defined behaviour exactly when every
    id in the table has its NUL inside the [ip] array. *)
Theorem display_defined (t : list host) :
  (∃ out, visualizer_tick fmt_f t = Ok out) ↔ Forall (λ h, fits (ip h)) t.
Proof.
  unfold visualizer_tick. split.
  - intros [out H].
    destruct (List.Forall_Exists_dec (λ h : host, fits (ip h))
                (λ h, lt_dec (length (ip h)) IP_SIZE) t) as [F|E]; [exact F|].
    rewrite (print_hosts_overrun t E) in H. discriminate.
  - intros F. destruct (print_hosts_defined t F) as [rows ->]. eauto.
Qed.

(** X14.  One report with an id of 32 bytes or more, on a table that has
    an unused entry, takes every later turn of the display out of defined
    behaviour: [printf] reads the id past the end of the [ip] array. *)
Theorem long_id_breaks_display (u : update float) (t t' : list host) :
  ¬ fits (update_id u) → (∃ h, h ∈ t ∧ ip h = []) →
  apply_update u t = Ok t' →
  visualizer_tick fmt_f t' = Undefined OutOfBounds.
Proof.
  intros Hlong (h0 & Hin & Hfree). rewrite apply_update_get_host.
  unfold get_host.
  destruct (find_ip t (update_id u) 0) as [[j|]|] eqn:F; [| |discriminate].
  { destruct (find_ip_some _ _ _ _ F) as (_ & h & _ & Hip & Hf).
    rewrite Hip in Hf. contradiction. }
  rewrite find_free_find.
  destruct (list_find_elem_of (λ h, ip h = []) t h0 Hin Hfree) as [[i x] Hx].
  rewrite Hx. cbn [fmap option_fmap option_map fst]. intros [= <-].
  apply list_find_Some in Hx as (Hi & _).
  unfold visualizer_tick. rewrite print_hosts_overrun; [reflexivity|].
  apply Exists_exists.
  exists (update_fields u (set_ip (strncpy (update_id u) IP_SIZE) x)). split.
  - apply (list_elem_of_lookup_2 _ i).
    rewrite !list_lookup_alter_eq, Hi. reflexivity.
  - assert (ip (update_fields u (set_ip (strncpy (update_id u) IP_SIZE) x))
            = strncpy (update_id u) IP_SIZE) as ->
      by (destruct u; reflexivity).
    unfold fits, strncpy in *. rewrite length_take. lia.
Qed.

Lemma shown_row (h1 h2 : host) :
  shown h1 = shown h2 →
  ip h1 = ip h2 ∧ print_cpu fmt_f h1 = print_cpu fmt_f h2 ∧
  print_mem fmt_f h1 = print_mem fmt_f h2.
Proof.
  unfold shown, print_cpu, print_mem. intros [= Hip Hc Hm].
  split; [exact Hip|]. split.
  - destruct (has_cpu h1), (has_cpu h2); try discriminate; [|reflexivity].
    injection Hc as -> -> -> ->. reflexivity.
  - destruct (has_mem h1), (has_mem h2); try discriminate; [|reflexivity].
    injection Hm as -> ->. reflexivity.
Qed.

(** X15.  The screen depends on the ids, on the CPU values of the records
    whose [has_cpu] is set and on [mem_used] and [mem_free] of those whose
    [has_mem] is set, and on nothing else: the swap values are never
    shown, nor is any value of a half that was not reported. *)
Theorem display_shown (t1 t2 : list host) :
  map shown t1 = map shown t2 →
  visualizer_tick fmt_f t1 = visualizer_tick fmt_f t2.
Proof.
  intros H. unfold visualizer_tick.
  assert (print_hosts fmt_f t1 = print_hosts fmt_f t2) as ->; [|reflexivity].
  revert t2 H. induction t1 as [|h1 t1 IH]; intros [|h2 t2];
    try discriminate; [reflexivity|].
  intros H.
  assert (shown h1 = shown h2 ∧ map shown t1 = map shown t2) as [Hh Ht]
    by (simpl in H; split; congruence).
  cbn [print_hosts]. destruct (shown_row h1 h2 Hh) as (-> & -> & ->).
  rewrite (IH t2 Ht). reflexivity.
Qed.

End DisplayProofs.

(** ** The agents *)

Lemma send_all_from (buf : list ascii) (outcomes rest : list Agent.send_outcome)
    (total : nat) (r : Z) (w : list ascii) :
  Agent.send_all buf outcomes total (take total buf) = Some (r, w, rest) →
  (r = 0%Z ∧ w = buf) ∨ (r = (-1)%Z ∧ ∃ x, x ≠ [] ∧ buf = w ++ x).
Proof.
  assert (∀ n, n < length buf →
            ∃ x, x ≠ [] ∧ buf = take n buf ++ x) as Hcut.
  { intros n Hn. exists (drop n buf). split; [|symmetry; apply take_drop].
    intros E. apply (f_equal length) in E. rewrite length_drop in E.
    simpl in E. lia. }
  revert total. induction outcomes as [|o outcomes IH]; intros total;
    cbn [Agent.send_all]; destruct (total <? length buf) eqn:L;
    try (intros [= <- <- <-]; left; split; [reflexivity|];
         apply take_ge; apply Nat.ltb_ge in L; lia).
  - discriminate.
  - apply Nat.ltb_lt in L. destruct o as [[|k]| |].
    + intros [= <- <- <-]. right. split; [reflexivity|]. apply Hcut, L.
    + rewrite take_take_drop. apply IH.
    + apply IH.
    + intros [= <- <- <-]. right. split; [reflexivity|]. apply Hcut, L.
Qed.

(** X16.  [send_all] returns 0 only with the whole buffer on the socket,
    each byte once and in order, whatever the partial sends and
    interruptions; when it returns -1 a proper prefix of the buffer, which
    may be empty, is on the socket. *)
Theorem send_all_wire (buf : list ascii)
    (outcomes rest : list Agent.send_outcome) (r : Z) (w : list ascii) :
  Agent.send_all buf outcomes 0 [] = Some (r, w, rest) →
  (r = 0%Z ∧ w = buf) ∨ (r = (-1)%Z ∧ ∃ x, x ≠ [] ∧ buf = w ++ x).
Proof. exact (send_all_from buf outcomes rest 0 r w). Qed.

Lemma send_all_progress_from (buf : list ascii)
    (outcomes : list Agent.send_outcome) (total : nat) :
  Forall (λ o, ∃ k, o = Agent.Sent (S k)) outcomes →
  length buf ≤ total + length outcomes →
  ∃ rest,
    Agent.send_all buf outcomes total (take total buf) = Some (0%Z, buf, rest).
Proof.
  intros H. revert total. induction H as [|o outcomes [k ->] _ IH];
    intros total Hlen; cbn [Agent.send_all];
    destruct (total <? length buf) eqn:L;
    try (apply Nat.ltb_ge in L; rewrite take_ge by lia; eauto).
  - apply Nat.ltb_lt in L. simpl in Hlen. lia.
  - rewrite take_take_drop. apply IH. simpl in Hlen. lia.
Qed.

(** X17.  When every [send] takes at least one byte, [send_all] is done
    after no more calls than the buffer has bytes, and returns 0. *)
Theorem send_all_progress (buf : list ascii)
    (outcomes : list Agent.send_outcome) :
  Forall (λ o, ∃ k, o = Agent.Sent (S k)) outcomes →
  length buf ≤ length outcomes →
  ∃ rest, Agent.send_all buf outcomes 0 [] = Some (0%Z, buf, rest).
Proof.
  intros H Hlen. exact (send_all_progress_from buf outcomes 0 H Hlen).
Qed.

Section AgentProofs.

Context {double : Type} (pct : Z → Z → double).

Lemma usub_uadd (p d : Z) :
  (0 ≤ d < Agent.ULONG_MOD)%Z → Agent.usub (Agent.uadd p d) p = d.
Proof.
  intros Hd. unfold Agent.usub, Agent.uadd.
  rewrite Zminus_mod_idemp_l. replace (p + d - p)%Z with d by lia.
  apply Z.mod_small. exact Hd.
Qed.

(** X18.  Two equal samples are reported as a CPU that is fully busy:
    with no tick between them [total] is set to 1, so that the usage is
    [100.0 * 1 / 1] while the user, system and idle shares are
    [100.0 * 0 / 1]. *)
Theorem calcular_deltas_same_sample (c : Agent.cpu_stats_t) :
  Agent.calcular_deltas pct c c = (pct 1 1, pct 0 1, pct 0 1, pct 0 1)%Z.
Proof.
  unfold Agent.calcular_deltas, Agent.usub. rewrite !Z.sub_diag.
  reflexivity.
Qed.

(** X19.  The percentages are those of the ticks that passed between the
    two samples, also when a counter of [/proc/stat] wrapped around in
    between; the usage counts the [nice] ticks as busy, which no other
    share does. *)
Theorem calcular_deltas_ticks (prev : Agent.cpu_stats_t) (du dn ds di : Z) :
  (0 ≤ du)%Z → (0 ≤ dn)%Z → (0 ≤ ds)%Z → (0 ≤ di)%Z →
  (0 < du + dn + ds + di < Agent.ULONG_MOD)%Z →
  Agent.calcular_deltas pct prev
    (Agent.mk_cpu_stats
       (Agent.uadd (Agent.user prev) du) (Agent.uadd (Agent.nice prev) dn)
       (Agent.uadd (Agent.system prev) ds) (Agent.uadd (Agent.idle prev) di))
  = (pct (du + dn + ds) (du + dn + ds + di),
     pct du (du + dn + ds + di),
     pct ds (du + dn + ds + di),
     pct di (du + dn + ds + di))%Z.
Proof.
  intros Hu Hn Hs Hi Ht. unfold Agent.calcular_deltas.
  cbn [Agent.user Agent.nice Agent.system Agent.idle].
  rewrite !usub_uadd by lia.
  assert (Agent.uadd (Agent.uadd (Agent.uadd du dn) ds) di
          = (du + dn + ds + di)%Z) as ->.
  { unfold Agent.uadd. rewrite (Z.mod_small (du + dn)) by lia.
    rewrite (Z.mod_small (du + dn + ds)) by lia. apply Z.mod_small. lia. }
  rewrite (proj2 (Z.eqb_neq _ _)) by lia.
  assert (Agent.usub (du + dn + ds + di) di = (du + dn + ds)%Z) as ->.
  { unfold Agent.usub. rewrite Z.mod_small; lia. }
  reflexivity.
Qed.

End AgentProofs.

(** ** From the agents to the table *)

Section WireProofs.

Context {float double : Type} (atof : cstr → float) (fmt2 : double → cstr).

Lemma client_thread_one (data : list ascii) (s : state float) :
  data ≠ [] →
  table_of (client_thread atof [data] s)
  = table_of (process_buffer atof data s).
Proof.
  destruct data as [|c data]; [congruence|]. intros _.
  cbn [client_thread]. unfold bind.
  destruct (process_buffer atof (c :: data) s) as [[[] s1]|f]; reflexivity.
Qed.

Lemma message_join (kind ip_logica : cstr) (a b c d : double) (m : cstr) :
  Agent.message fmt2 kind ip_logica a b c d = Some m →
  m = (join [kind; ip_logica; fmt2 a; fmt2 b; fmt2 c; fmt2 d] ++ []) ++ [NL]
  ∧ length m < 256.
Proof.
  unfold Agent.message.
  destruct (_ <? 256) eqn:L; [|discriminate]. intros [= <-].
  apply Nat.ltb_lt in L. split; [|exact L].
  cbn [join]. rewrite app_nil_r.
  repeat (rewrite <- app_assoc; cbn [app]). reflexivity.
Qed.

(** X20.  The line [agent_cpu] builds from an id and four values, when
    one read delivers it whole, is applied by the collector as the CPU
    update for that id with the four values as [atof] reads their
    [%.2f] texts. *)
Theorem cpu_message_round_trip (ip_logica : cstr) (a b c d : double)
    (m : cstr) (s : state float) :
  wire_field ip_logica = true →
  wire_field (fmt2 a) = true → wire_field (fmt2 b) = true →
  wire_field (fmt2 c) = true → wire_field (fmt2 d) = true →
  Agent.cpu_message fmt2 ip_logica a b c d = Some m →
  table_of (client_thread atof [m] s)
  = cpu_update ip_logica (atof (fmt2 a)) (atof (fmt2 b)) (atof (fmt2 c))
      (atof (fmt2 d)) (hosts s).
Proof.
  intros Hid Ha Hb Hc Hd Hm. apply message_join in Hm as [-> Hlen].
  rewrite client_thread_one by (simpl; discriminate).
  rewrite length_app in Hlen.
  pose proof (process_buffer_cpu_line atof ip_logica (fmt2 a) (fmt2 b)
                (fmt2 c) (fmt2 d) [] [] s Hid Ha Hb Hc Hd (Forall_nil_2 _)
                (or_introl eq_refl)) as E.
  etransitivity.
  { apply (f_equal table_of), E. apply Nat.lt_le_trans with 256.
    - eapply Nat.le_lt_trans; [apply Nat.le_add_r|exact Hlen].
    - unfold MAX_LINE. lia. }
  destruct (cpu_update ip_logica _ _ _ _ (hosts s)); reflexivity.
Qed.

(** X21.  The line [agent_mem] builds from an id and four values, when
    one read delivers it whole, is applied by the collector as the MEM
    update for that id with the four values as [atof] reads their
    [%.2f] texts. *)
Theorem mem_message_round_trip (ip_logica : cstr) (a b c d : double)
    (m : cstr) (s : state float) :
  wire_field ip_logica = true →
  wire_field (fmt2 a) = true → wire_field (fmt2 b) = true →
  wire_field (fmt2 c) = true → wire_field (fmt2 d) = true →
  Agent.mem_message fmt2 ip_logica a b c d = Some m →
  table_of (client_thread atof [m] s)
  = mem_update ip_logica (atof (fmt2 a)) (atof (fmt2 b)) (atof (fmt2 c))
      (atof (fmt2 d)) (hosts s).
Proof.
  intros Hid Ha Hb Hc Hd Hm. apply message_join in Hm as [-> Hlen].
  rewrite client_thread_one by (simpl; discriminate).
  rewrite length_app in Hlen.
  pose proof (process_buffer_mem_line atof ip_logica (fmt2 a) (fmt2 b)
                (fmt2 c) (fmt2 d) [] [] s Hid Ha Hb Hc Hd (Forall_nil_2 _)
                (or_introl eq_refl)) as E.
  etransitivity.
  { apply (f_equal table_of), E. apply Nat.lt_le_trans with 256.
    - eapply Nat.le_lt_trans; [apply Nat.le_add_r|exact Hlen].
    - unfold MAX_LINE. lia. }
  destruct (mem_update ip_logica _ _ _ _ (hosts s)); reflexivity.
Qed.

End WireProofs.

(** ** The model at work: witnesses and counterexamples *)

(** The [atof] of [Decimal] returns zero where ISO C performs no
    conversion. *)
Lemma decimal_atof_no_conversion (f : cstr) :
  no_conversion f = true → Decimal.atof f = Decimal.zero.
Proof.
  unfold no_conversion, Decimal.atof.
  destruct (sign_of (skip_space f)) as [neg s1]. simpl snd.
  destruct s1 as [|c rest]; [reflexivity|].
  simpl Decimal.span_digits.
  destruct (isdigit c); [discriminate|].
  destruct (Ascii.eqb c ".").
  - destruct rest as [|c' rest']; [reflexivity|].
    simpl. destruct (isdigit c'); [discriminate|reflexivity].
  - reflexivity.
Qed.

(** C1, witness: [CPU;10.0.0.1;1;2], the line the specification gives as
    its example of missing fields. *)
Lemma short_line_outcome_witness :
  run_parse_cpu "CPU;10.0.0.1;1;2" = Undefined NullPointer.
Proof.
  apply (short_line_outcome Decimal.atof dstate0 Copy
           [cs "10.0.0.1"; cs "1"; cs "2"]).
  - repeat constructor.
  - simpl. lia.
Defined.

(** C3, counterexample: the line [CPU;10.0.0.1;1;2;3;4] delivered in two
    reads, [CP] and the rest, leaves the table empty, while the same bytes
    in one read create the record. *)
Lemma split_line_not_applied :
  run_client ["CP"; "U;10.0.0.1;1;2;3;4" ++ nl]%string
  = Ok (hosts0 Decimal.zero) ∧
  run_client ["CPU;10.0.0.1;1;2;3;4" ++ nl]%string
  ≠ Ok (hosts0 Decimal.zero).
Proof.
  split; [vm_compute; reflexivity|].
  intros H. vm_compute in H. discriminate H.
Qed.

(** C4, counterexample: 65 distinct ids of 34 bytes that share their
    first 32.  The first update stores 32 bytes without a NUL; the lookup
    for the second id compares them equal and reads past the array. *)
Lemma long_ids_overrun :
  length (arrival_order (map long_id (seq 0 65))) = 65 ∧
  apply_updates (cpu_updates (map long_id (seq 0 65))) (hosts0 Decimal.zero)
  = Undefined OutOfBounds.
Proof. split; vm_compute; reflexivity. Qed.

(** C4, witness: 65 updates with the ids [a0] ... [g4]. *)
Lemma table_capacity_witness :
  ∃ t,
    apply_updates (cpu_updates (map short_id (seq 0 65))) (hosts0 Decimal.zero)
    = Ok t ∧
    length (snapshot t) = MAX_HOSTS.
Proof.
  destruct (table_capacity Decimal.zero (cpu_updates (map short_id (seq 0 65))))
    as (t & E & _ & Hlen & _).
  - unfold cpu_updates. rewrite Forall_fmap, Forall_fmap.
    apply Forall_forall. intros k _. simpl. split; [discriminate|].
    unfold fits. simpl. unfold IP_SIZE. lia.
  - exists t. split; [exact E|]. apply Hlen. vm_compute. lia.
Defined.

(** C5, witness: on the table that holds [10.0.0.1] with its CPU report,
    so that a record is in use and its [has_cpu] is set, a connection
    delivers a MEM line for that host and a CPU line for another one.  The
    record is still the first entry afterwards, under its id and with
    [has_cpu] set. *)
Lemma records_and_flags_kept_witness :
  match
    client_thread Decimal.atof
      [cs "MEM;10.0.0.1;5;6;7;8" ++ [NL]; cs "CPU;10.0.0.2;9;8;7;6" ++ [NL]]
      (mk_state cpu_reported None)
  with
  | Ok (_, s') =>
      table_le cpu_reported (hosts s') ∧
      ∃ h, hosts s' !! 0 = Some h ∧ ip h = cs "10.0.0.1" ∧ has_cpu h = true
  | Undefined _ => False
  end.
Proof.
  destruct (client_thread Decimal.atof _ (mk_state cpu_reported None))
    as [[u s']|f] eqn:E.
  - pose proof (records_and_flags_kept Decimal.atof (Copy, []) _
                  (mk_state cpu_reported None) s' u
                  (or_intror (or_intror E))) as Hle.
    split; [exact Hle|].
    destruct (Forall2_lookup_l _ _ _ 0
                (set_cpu (d 1) (d 2) (d 3) (d 4)
                   (set_ip (cs "10.0.0.1") (zero_host Decimal.zero)))
                Hle eq_refl) as (h & Hl & Hip & Hc & _).
    exists h. split; [exact Hl|].
    split; [apply Hip; discriminate|apply Hc; reflexivity].
  - vm_compute in E. discriminate E.
Defined.

(** C6, counterexample: five fields are present in [CPU;10.0.0.1;;1;2;3]
    and the second, being empty, is no number; [strtok] steps over it, the
    sixth token is missing and [atof] gets the null pointer. *)
Lemma empty_numeric_field_null :
  run_parse_cpu "CPU;10.0.0.1;;1;2;3" = Undefined NullPointer.
Proof. vm_compute. reflexivity. Qed.

(** C6, witness: [CPU;10.0.0.1;abc;1;2;3] with the [atof] of [Decimal]. *)
Lemma unparsable_field_is_zero_witness :
  run_parse_cpu "CPU;10.0.0.1;abc;1;2;3"
  = cpu_update (cs "10.0.0.1") Decimal.zero (d 1) (d 2) (d 3)
      (hosts0 Decimal.zero).
Proof.
  destruct (unparsable_field_is_zero Decimal.zero Decimal.atof
              decimal_atof_no_conversion dstate0 Copy
              (cs "10.0.0.1") (cs "abc") (cs "1") (cs "2") (cs "3")
              eq_refl eq_refl eq_refl eq_refl eq_refl) as [[H _] _].
  exact H.
Defined.

(** C7, counterexample: the host id field of [CPU;;10;20;30;40;50] is
    empty, yet the line creates the record of a host [10]. *)
Lemma empty_host_id_line_applied :
  ∃ t, run_parse_cpu "CPU;;10;20;30;40;50" = Ok t ∧
       map ip (snapshot t) = [cs "10"].
Proof. eexists. split; vm_compute; reflexivity. Qed.

(** C8, counterexample: for an id of 40 bytes the CPU update stores 32
    bytes without a NUL, and the lookup of the MEM update reads past the
    array: no record with both flags results. *)
Lemma long_id_cpu_then_mem_overrun :
  match cpu_update (replicate 40 "a"%char) (d 1) (d 2) (d 3) (d 4)
          (hosts0 Decimal.zero) with
  | Ok t1 => mem_update (replicate 40 "a"%char) (d 5) (d 6) (d 7) (d 8) t1
  | Undefined f => Undefined f
  end = Undefined OutOfBounds.
Proof. vm_compute. reflexivity. Qed.

(** C8, witness: the id [10.0.0.1] on the empty table. *)
Lemma cpu_then_mem_witness :
  ∃ t1 t2 i h,
    cpu_update (cs "10.0.0.1") (d 1) (d 2) (d 3) (d 4) (hosts0 Decimal.zero)
    = Ok t1 ∧
    mem_update (cs "10.0.0.1") (d 5) (d 6) (d 7) (d 8) t1 = Ok t2 ∧
    t2 !! i = Some h ∧ ip h = cs "10.0.0.1" ∧
    cpu_part h = (d 1, d 2, d 3, d 4, true) ∧
    mem_part h = (d 5, d 6, d 7, d 8, true).
Proof.
  destruct (cpu_then_mem (hosts0 Decimal.zero) (cs "10.0.0.1")
              (d 1) (d 2) (d 3) (d 4) (d 5) (d 6) (d 7) (d 8)) as (_ & _ & H).
  apply H.
  - unfold fits, IP_SIZE. simpl. lia.
  - exists (zero_host Decimal.zero). split; [|right; reflexivity].
    unfold hosts0, MAX_HOSTS. simpl. left.
Defined.

(** C9, counterexample: a [MEM;] line whose id has 40 bytes.  Parsed
    once it creates a record; parsed again, the lookup reads past the [ip]
    array of that record. *)
Lemma long_id_mem_twice_overrun :
  let line := (Copy, cs "MEM;" ++ replicate 40 "a"%char ++ cs ";1;2;3;4") in
  table_of (bind (parse_mem Decimal.atof line)
              (λ _, parse_mem Decimal.atof line) dstate0)
  = Undefined OutOfBounds ∧
  table_of (parse_mem Decimal.atof line dstate0) ≠ Undefined OutOfBounds.
Proof.
  split; [vm_compute; reflexivity|].
  intros H. vm_compute in H. discriminate H.
Qed.

(** C9, witness: the line [MEM;10.0.0.1;1;2;3;4]. *)
Lemma mem_line_idempotent_witness :
  table_of (bind (parse_mem Decimal.atof (Copy, cs "MEM;10.0.0.1;1;2;3;4"))
              (λ _, parse_mem Decimal.atof (Copy, cs "MEM;10.0.0.1;1;2;3;4"))
              dstate0)
  = table_of (parse_mem Decimal.atof (Copy, cs "MEM;10.0.0.1;1;2;3;4")
                dstate0).
Proof.
  apply (mem_line_idempotent Decimal.atof dstate0 Copy
           (cs "10.0.0.1") (cs "1") (cs "2") (cs "3") (cs "4")
           eq_refl eq_refl eq_refl eq_refl eq_refl).
  unfold fits, IP_SIZE. simpl. lia.
Defined.

(** C10, counterexample: in [MEM;h;;1;2;3;4] the sixth field is not
    ignored: [strtok] steps over the empty second field and the sixth is
    stored as [swap_f], so that changing it changes the table. *)
Lemma sixth_field_read :
  run_parse_mem "MEM;h;;1;2;3;4" ≠ run_parse_mem "MEM;h;;1;2;3;5".
Proof. intros H. vm_compute in H. discriminate H. Qed.

(** C10, witness: [CPU;10.0.0.1;1;2;3;4] followed by two more fields. *)
Lemma extra_fields_not_read_witness :
  table_of (parse_cpu Decimal.atof
              (Copy, cs "CPU;10.0.0.1;1;2;3;4;junk;more") dstate0)
  = table_of (parse_cpu Decimal.atof (Copy, cs "CPU;10.0.0.1;1;2;3;4")
                dstate0).
Proof.
  destruct (extra_fields_not_read Decimal.atof dstate0 Copy
              (cs "10.0.0.1") (cs "1") (cs "2") (cs "3") (cs "4")
              (cs "junk;more") eq_refl eq_refl eq_refl eq_refl eq_refl)
    as [[H _] _].
  exact H.
Defined.

(** ** The further properties at work *)

(** X1, witness: the id [10.0.0.1], entered into the empty table. *)
Lemma get_host_round_trip_witness :
  get_host (cs "10.0.0.1") (one_host (cs "10.0.0.1"))
  = Ok (Some 0, one_host (cs "10.0.0.1")).
Proof.
  refine (proj1 (get_host_round_trip (cs "10.0.0.1") (cs "10.0.0.2")
                   (hosts0 Decimal.zero) (one_host (cs "10.0.0.1"))
                   (one_host (cs "10.0.0.1")) 0 0 _ _ _ _)).
  - unfold fits, IP_SIZE. simpl. lia.
  - unfold fits, IP_SIZE. simpl. lia.
  - discriminate.
  - vm_compute. reflexivity.
Defined.

(** X2, witness: the first CPU report of [10.0.0.1]. *)
Lemma update_one_entry_witness :
  one_change (hosts0 Decimal.zero)
    (alter (set_cpu (d 1) (d 2) (d 3) (d 4)) 0 (one_host (cs "10.0.0.1"))).
Proof.
  apply (update_one_entry (CpuUpdate (cs "10.0.0.1") (d 1) (d 2) (d 3) (d 4))).
  vm_compute. reflexivity.
Defined.

(** X3, witness: two reports of [10.0.0.1] on the empty table. *)
Lemma last_update_wins_witness :
  apply_updates [CpuUpdate (cs "10.0.0.1") (d 1) (d 2) (d 3) (d 4);
                 CpuUpdate (cs "10.0.0.1") (d 5) (d 6) (d 7) (d 8)]
    (hosts0 Decimal.zero)
  = cpu_update (cs "10.0.0.1") (d 5) (d 6) (d 7) (d 8) (hosts0 Decimal.zero).
Proof.
  refine (proj1 (last_update_wins (cs "10.0.0.1") (d 1) (d 2) (d 3) (d 4)
                   (d 5) (d 6) (d 7) (d 8) (hosts0 Decimal.zero) _)).
  unfold fits, IP_SIZE. simpl. lia.
Defined.

(** X4, witness: a CPU and a MEM report of [10.0.0.1]. *)
Lemma cpu_mem_commute_witness :
  apply_updates [CpuUpdate (cs "10.0.0.1") (d 1) (d 2) (d 3) (d 4);
                 MemUpdate (cs "10.0.0.1") (d 5) (d 6) (d 7) (d 8)]
    (hosts0 Decimal.zero)
  = apply_updates [MemUpdate (cs "10.0.0.1") (d 5) (d 6) (d 7) (d 8);
                   CpuUpdate (cs "10.0.0.1") (d 1) (d 2) (d 3) (d 4)]
      (hosts0 Decimal.zero).
Proof.
  apply cpu_mem_commute. unfold fits, IP_SIZE. simpl. lia.
Defined.

(** X5, witness: reports of [a0], [a1], [a2] and [a0] again. *)
Lemma table_ids_distinct_witness :
  match
    apply_updates (cpu_updates (map short_id [0; 1; 2; 0]))
      (hosts0 Decimal.zero)
  with
  | Ok t => NoDup (map ip (snapshot t))
  | Undefined _ => False
  end.
Proof.
  destruct (apply_updates _ (hosts0 Decimal.zero)) as [t|f] eqn:E.
  - apply (table_ids_distinct Decimal.zero
             (cpu_updates (map short_id [0; 1; 2; 0])) t); [|exact E].
    repeat constructor; try discriminate; unfold fits, IP_SIZE; simpl; lia.
  - vm_compute in E. discriminate E.
Defined.

(** X6, witness: a MEM report of [b] on the table that holds [a]. *)
Lemma update_other_hosts_witness :
  match
    apply_update (MemUpdate (cs "b") (d 5) (d 6) (d 7) (d 8))
      (one_host (cs "a"))
  with
  | Ok t' =>
      list_find (λ h, ip h = cs "a") t'
      = list_find (λ h, ip h = cs "a") (one_host (cs "a"))
  | Undefined _ => False
  end.
Proof.
  destruct (apply_update _ (one_host (cs "a"))) as [t'|f] eqn:E.
  - apply (update_other_hosts (MemUpdate (cs "b") (d 5) (d 6) (d 7) (d 8))
             (cs "a") (one_host (cs "a")) t'); [| | |exact E].
    + unfold fits, IP_SIZE. simpl. lia.
    + discriminate.
    + discriminate.
  - vm_compute in E. discriminate E.
Defined.


(** X9, witness: a CPU line and a MEM line in two reads. *)
Lemma reads_apply_updates_witness :
  match
    client_thread Decimal.atof
      [cs "CPU;10.0.0.1;1;2;3;4" ++ [NL]; cs "MEM;10.0.0.2;5;6;7;8" ++ [NL]]
      dstate0
  with
  | Ok (_, s') =>
      ∃ us, length us ≤ 2 ∧ Forall (λ upd, update_id upd ≠ []) us ∧
            apply_updates us (hosts dstate0) = Ok (hosts s')
  | Undefined _ => False
  end.
Proof.
  destruct (client_thread Decimal.atof _ dstate0) as [[u s']|f] eqn:E.
  - exact (reads_apply_updates Decimal.atof _ dstate0 s' u E).
  - vm_compute in E. discriminate E.
Defined.

(** X10, witness: the same two reads, from the empty table. *)
Lemma unused_entries_stay_zero_witness :
  match
    client_thread Decimal.atof
      [cs "CPU;10.0.0.1;1;2;3;4" ++ [NL]; cs "MEM;10.0.0.2;5;6;7;8" ++ [NL]]
      dstate0
  with
  | Ok (_, s') => clean Decimal.zero (hosts s')
  | Undefined _ => False
  end.
Proof.
  destruct (client_thread Decimal.atof _ dstate0) as [[u s']|f] eqn:E.
  - exact (unused_entries_stay_zero Decimal.zero Decimal.atof _ dstate0 s' u
             (clean_hosts0 Decimal.zero) E).
  - vm_compute in E. discriminate E.
Defined.

(** X11, witness: a CPU line with a MEM line behind it in the same
    read. *)
Lemma rest_of_read_dropped_witness :
  table_of (process_buffer Decimal.atof
              (join [cs "CPU"; cs "10.0.0.1"; cs "1"; cs "2"; cs "3"; cs "4"]
               ++ NL :: cs "MEM;10.0.0.1;5;6;7;8") dstate0)
  = cpu_update (cs "10.0.0.1") (Decimal.atof (cs "1")) (Decimal.atof (cs "2"))
      (Decimal.atof (cs "3")) (Decimal.atof (cs "4")) (hosts dstate0).
Proof.
  refine (proj1 (rest_of_read_dropped Decimal.atof (cs "10.0.0.1") (cs "1")
                   (cs "2") (cs "3") (cs "4") (cs "MEM;10.0.0.1;5;6;7;8")
                   dstate0 eq_refl eq_refl eq_refl eq_refl eq_refl _)).
  unfold MAX_LINE. simpl. lia.
Defined.

(** X12, witness: a CPU line with a seventh field. *)
Lemma extra_field_overlap_witness :
  process_buffer Decimal.atof
    ((join [cs "CPU"; cs "10.0.0.1"; cs "1"; cs "2"; cs "3"; cs "4"]
      ++ SEMI :: cs "5") ++ NL :: []) dstate0
  = Undefined Overlap.
Proof.
  refine (proj1 (extra_field_overlap Decimal.atof (cs "10.0.0.1") (cs "1")
                   (cs "2") (cs "3") (cs "4") (cs "5") [] dstate0
                   eq_refl eq_refl eq_refl eq_refl eq_refl _ _ _ _ _)).
  - discriminate.
  - repeat (constructor; [split; discriminate|]). constructor.
  - unfold MAX_LINE. simpl. lia.
  - unfold fits, IP_SIZE. simpl. lia.
  - exists (zero_host Decimal.zero). split; [|right; reflexivity].
    unfold dstate0, state0, hosts0, MAX_HOSTS. simpl. left.
Defined.

(** X14, witness: a report with an id of 34 bytes on the empty table. *)
Lemma long_id_breaks_display_witness :
  match
    apply_update (CpuUpdate (long_id 0) (d 1) (d 2) (d 3) (d 4))
      (hosts0 Decimal.zero)
  with
  | Ok t' => visualizer_tick fmt_num t' = Undefined OutOfBounds
  | Undefined _ => False
  end.
Proof.
  destruct (apply_update _ (hosts0 Decimal.zero)) as [t'|f] eqn:E.
  - apply (long_id_breaks_display fmt_num
             (CpuUpdate (long_id 0) (d 1) (d 2) (d 3) (d 4))
             (hosts0 Decimal.zero) t'); [| |exact E].
    + unfold fits, IP_SIZE. simpl. lia.
    + exists (zero_host Decimal.zero). split; [|reflexivity].
      unfold hosts0, MAX_HOSTS. simpl. left.
  - vm_compute in E. discriminate E.
Defined.

(** X15, witness: two tables that differ in the swap values of [a] and
    in the CPU values of [b], which has no CPU report. *)
Lemma display_shown_witness :
  visualizer_tick fmt_num
    [mk_host (cs "a") (d 1) (d 2) (d 3) (d 4) (d 5) (d 6) (d 7) (d 8)
       true true;
     mk_host (cs "b") (d 1) (d 2) (d 3) (d 4) (d 5) (d 6) (d 7) (d 8)
       false true]
  = visualizer_tick fmt_num
      [mk_host (cs "a") (d 1) (d 2) (d 3) (d 4) (d 5) (d 6) (d 0) (d 9)
         true true;
       mk_host (cs "b") (d 9) (d 9) (d 9) (d 9) (d 5) (d 6) (d 7) (d 8)
         false true].
Proof. apply display_shown. reflexivity. Defined.

(** X16, witness: a partial send, an interruption, and the rest. *)
Lemma send_all_wire_witness :
  match
    Agent.send_all (cs "CPU;h;1.00;2.00;3.00;4.00")
      [Agent.Sent 3; Agent.Eintr; Agent.Sent 22] 0 []
  with
  | Some (r, w, _) =>
      (r = 0%Z ∧ w = cs "CPU;h;1.00;2.00;3.00;4.00") ∨
      (r = (-1)%Z ∧ ∃ x, x ≠ [] ∧ cs "CPU;h;1.00;2.00;3.00;4.00" = w ++ x)
  | None => False
  end.
Proof.
  destruct (Agent.send_all _ _ 0 []) as [[[r w] rest]|] eqn:E.
  - exact (send_all_wire _ _ rest r w E).
  - vm_compute in E. discriminate E.
Defined.

(** X17, witness: six bytes, sent one at a time. *)
Lemma send_all_progress_witness :
  ∃ rest,
    Agent.send_all (cs "CPU;h" ++ [NL]) (replicate 6 (Agent.Sent 1)) 0 []
    = Some (0%Z, cs "CPU;h" ++ [NL], rest).
Proof.
  apply send_all_progress; [|simpl; lia].
  repeat (constructor; [exists 0; reflexivity|]). constructor.
Defined.

(** X19, witness: the [user] counter wraps around between the samples. *)
Lemma calcular_deltas_ticks_witness :
  Agent.calcular_deltas pct_fixed
    (Agent.mk_cpu_stats (Agent.ULONG_MOD - 5) 10 20 30)
    (Agent.mk_cpu_stats
       (Agent.uadd (Agent.ULONG_MOD - 5) 50) (Agent.uadd 10 10)
       (Agent.uadd 20 20) (Agent.uadd 30 20))
  = (pct_fixed (50 + 10 + 20) (50 + 10 + 20 + 20),
     pct_fixed 50 (50 + 10 + 20 + 20),
     pct_fixed 20 (50 + 10 + 20 + 20),
     pct_fixed 20 (50 + 10 + 20 + 20))%Z.
Proof.
  apply (calcular_deltas_ticks pct_fixed
           (Agent.mk_cpu_stats (Agent.ULONG_MOD - 5) 10 20 30) 50 10 20 20);
    try lia.
  change Agent.ULONG_MOD with 18446744073709551616%Z. lia.
Defined.

(** X20, witness: the line of [agent_cpu] for [10.0.0.1]. *)
Lemma cpu_message_round_trip_witness :
  match
    Agent.cpu_message fmt2_fixed (cs "10.0.0.1") 1250%Z 300%Z 200%Z 8750%Z
  with
  | Some m =>
      table_of (client_thread Decimal.atof [m] dstate0)
      = cpu_update (cs "10.0.0.1")
          (Decimal.atof (fmt2_fixed 1250%Z)) (Decimal.atof (fmt2_fixed 300%Z))
          (Decimal.atof (fmt2_fixed 200%Z)) (Decimal.atof (fmt2_fixed 8750%Z))
          (hosts dstate0)
  | None => False
  end.
Proof.
  destruct (Agent.cpu_message fmt2_fixed _ _ _ _ _) as [m|] eqn:E.
  - apply (cpu_message_round_trip Decimal.atof fmt2_fixed (cs "10.0.0.1")
             1250%Z 300%Z 200%Z 8750%Z m dstate0); try exact E;
      vm_compute; reflexivity.
  - vm_compute in E. discriminate E.
Defined.

(** X21, witness: the line of [agent_mem] for [10.0.0.1]. *)
Lemma mem_message_round_trip_witness :
  match
    Agent.mem_message fmt2_fixed (cs "10.0.0.1") 204800%Z 51200%Z 0%Z 0%Z
  with
  | Some m =>
      table_of (client_thread Decimal.atof [m] dstate0)
      = mem_update (cs "10.0.0.1")
          (Decimal.atof (fmt2_fixed 204800%Z))
          (Decimal.atof (fmt2_fixed 51200%Z))
          (Decimal.atof (fmt2_fixed 0%Z)) (Decimal.atof (fmt2_fixed 0%Z))
          (hosts dstate0)
  | None => False
  end.
Proof.
  destruct (Agent.mem_message fmt2_fixed _ _ _ _ _) as [m|] eqn:E.
  - apply (mem_message_round_trip Decimal.atof fmt2_fixed (cs "10.0.0.1")
             204800%Z 51200%Z 0%Z 0%Z m dstate0); try exact E;
      vm_compute; reflexivity.
  - vm_compute in E. discriminate E.
Defined.
